(** * uncertainpy.core.run_model: the RunModel class

    A shallow embedding of [src/uncertainpy/core/run_model.py] and the
    properties of its parameter binder, dispatcher, regularity checker,
    interpolation merger and data assembler. *)

From stdpp Require Import gmap strings list.

Local Open Scope string_scope.
Local Open Scope list_scope.
Local Open Scope nat_scope.

(** ** Python exceptions and the two effect layers *)

Inductive exn_kind :=
| ValueError
| TypeError
| NotImplementedError
| ImportError
| KeyError
| IndexError
| UnboundLocalError.

(** An exception instance: its class and its [args] tuple. *)
Inductive exn := Raise (kind : exn_kind) (args : list string).

#[global] Instance exn_kind_eq_dec : EqDecision exn_kind.
Proof. solve_decision. Defined.

#[global] Instance exn_eq_dec : EqDecision exn.
Proof. solve_decision. Defined.

(** Pure code that may raise. *)
Inductive res (A : Type) :=
| Ok (a : A)
| Err (e : exn).

Arguments Ok {A} a.
Arguments Err {A} e.

#[global] Instance res_ret : MRet res := fun A a => Ok a.

#[global] Instance res_bind : MBind res := fun A B f m =>
  match m with
  | Ok a => f a
  | Err e => Err e
  end.

(** What a call does to the world besides returning: the virtual display,
    the worker pool and the logger. *)
Inductive event :=
| XvfbStart
| XvfbStop
| PoolOpen (processes : nat)
| WorkerDone (index : nat)
| PoolClose
| LogWarning (msg : string).

#[global] Instance event_eq_dec : EqDecision event.
Proof. solve_decision. Defined.

(** Effectful code: the events it emitted, in order, and how it ended. *)
Record M (A : Type) := Run { trace : list event; outcome : res A }.

Arguments Run {A} trace outcome.
Arguments trace {A} m.
Arguments outcome {A} m.

#[global] Instance M_ret : MRet M := fun A a => Run [] (Ok a).

#[global] Instance M_bind : MBind M := fun A B f m =>
  match m with
  | Run t (Ok a) => match f a with Run t' o => Run (t ++ t') o end
  | Run t (Err e) => Run t (Err e)
  end.

Definition emit (e : event) : M unit := Run [e] (Ok tt).

Definition raise {A} (e : exn) : M A := Run [] (Err e).

Definition lift {A} (r : res A) : M A := Run [] r.

(** [for x in xs: acc = body acc x], stopping at the first exception. *)
Fixpoint for_res {A B} (body : B → A → res B) (xs : list A) (acc : B) : res B :=
  match xs with
  | [] => Ok acc
  | x :: rest => acc' ← body acc x; for_res body rest acc'
  end.

Fixpoint for_M {A B} (body : B → A → M B) (xs : list A) (acc : B) : M B :=
  match xs with
  | [] => mret acc
  | x :: rest => acc' ← body acc x; for_M body rest acc'
  end.

(** [[f x for x in xs]], stopping at the first exception. *)
Fixpoint map_res {A B} (f : A → res B) (xs : list A) : res (list B) :=
  match xs with
  | [] => Ok []
  | x :: rest => y ← f x; ys ← map_res f rest; Ok (y :: ys)
  end.

(** ** Values

    Numbers are carried around unchanged by this module, which does no
    arithmetic on them; they are integers here.  [PyNan] is the object
    [np.nan], the invalid marker; [PyArr] is a numpy array or a list. *)

Unset Elimination Schemes.
Inductive pyval :=
| PyNone
| PyNan
| PyNum (z : Z)
| PyArr (items : list pyval).
Set Elimination Schemes.

(** Induction over nested arrays. *)
Fixpoint pyval_ind (P : pyval → Prop)
    (HNone : P PyNone) (HNan : P PyNan) (HNum : ∀ z, P (PyNum z))
    (HArr : ∀ items, Forall P items → P (PyArr items)) (v : pyval) : P v :=
  match v with
  | PyNone => HNone
  | PyNan => HNan
  | PyNum z => HNum z
  | PyArr items =>
      HArr items
        ((fix all (l : list pyval) : Forall P l :=
            match l with
            | [] => Forall_nil_2 P
            | x :: l' => Forall_cons_2 P x l' (pyval_ind P HNone HNan HNum HArr x) (all l')
            end) items)
  end.

(** The node array handed to [run]: numpy arrays are rectangular, so a 2-D
    array is its rows together with the common row length. *)
Inductive ndarray :=
| Array0 (x : Z)
| Array1 (xs : list Z)
| Array2 (ncols : nat) (rows : list (list Z)).

(** A node matrix: a rectangular 2-D array, one column per evaluation, or a
    1-D array, one entry per evaluation. *)
Definition is_node_matrix (nodes : ndarray) : Prop :=
  match nodes with
  | Array0 _ => False
  | Array1 _ => True
  | Array2 n rows => Forall (λ row, length row = n) rows
  end.

Definition nrows (nodes : ndarray) : nat :=
  match nodes with
  | Array0 _ => 0
  | Array1 _ => 1
  | Array2 _ rows => length rows
  end.

Definition ncols (nodes : ndarray) : nat :=
  match nodes with
  | Array0 _ => 0
  | Array1 xs => length xs
  | Array2 n _ => n
  end.

Definition column (i : nat) (rows : list (list Z)) : list Z :=
  omap (λ row : list Z, row !! i) rows.

(** What iterating [nodes.T] yields: the 0-d entries of a 1-D array, or the
    columns of a 2-D array. *)
Inductive node :=
| Entry (x : Z)
| Column (xs : list Z).

(** Iterating [nodes.T]. *)
Definition iter_T (nodes : ndarray) : res (list node) :=
  match nodes with
  | Array0 _ => Err (Raise TypeError ["iteration over a 0-d array"])
  | Array1 xs => Ok (Entry <$> xs)
  | Array2 n rows => Ok ((λ i, Column (column i rows)) <$> seq 0 n)
  end.

(** ** The collaborators of RunModel *)

Record Param := { parameter_name : string; parameter_value : Z }.

Record Model := {
  model_name : string;
  model_labels : list string;
  model_adaptive : bool;
  model_ignore : bool;
  model_suppress_graphics : bool
}.

Record Features := {
  features_adaptive : list string;
  features_labels : gmap string (list string)
}.

(** A scipy interpolation object: a function of time. *)
Record Interpolation := { spline : Z → Z }.

(** One result envelope, [{"values": .., "time": .., "interpolation": ..}];
    [None] is an absent key. *)
Record Envelope := {
  values : option pyval;
  time : option pyval;
  interpolation : option Interpolation
}.

(** One evaluation result: feature name to envelope, in insertion order. *)
Definition Evaluation := list (string * Envelope).

Record RunModel := {
  model : Model;
  parameters : list Param;
  features : Features;
  CPUs : nat;
  parallel_run : gmap string Z → res Evaluation
}.

(** ** create_model_parameters *)

(** [if node.ndim == 0: node = [node]] *)
Definition as_sequence (node : node) : list Z :=
  match node with
  | Entry x => [x]
  | Column xs => xs
  end.

(** [for j, parameter in enumerate(uncertain_parameters):
        parameters[parameter] = node[j]] *)
Fixpoint assign_nodes (j : nat) (uncertain_parameters : list string)
    (node : list Z) (params : gmap string Z) : res (gmap string Z) :=
  match uncertain_parameters with
  | [] => Ok params
  | parameter :: rest =>
      match node !! j with
      | Some x => assign_nodes (S j) rest node (<[parameter := x]> params)
      | None => Err (Raise IndexError ["index out of bounds"])
      end
  end.

(** [for parameter in self.parameters:
        if parameter.name not in parameters:
            parameters[parameter.name] = parameter.value] *)
Fixpoint fill_nominal (ps : list Param) (params : gmap string Z)
    : gmap string Z :=
  match ps with
  | [] => params
  | p :: rest =>
      fill_nominal rest
        (match params !! parameter_name p with
         | Some _ => params
         | None => <[parameter_name p := parameter_value p]> params
         end)
  end.

Definition create_model_parameters (self : RunModel) (nodes : ndarray)
    (uncertain_parameters : list string) : res (list (gmap string Z)) :=
  columns ← iter_T nodes;
  map_res (λ node,
    params ← assign_nodes 0 uncertain_parameters (as_sequence node) ∅;
    Ok (fill_nominal (parameters self) params)) columns.

(** The nominal value declared for [x]: that of the first parameter named [x]. *)
Fixpoint nominal (ps : list Param) (x : string) : option Z :=
  match ps with
  | [] => None
  | p :: rest =>
      if decide (parameter_name p = x) then Some (parameter_value p)
      else nominal rest x
  end.

(** The value sampled for the [j]-th uncertain parameter in evaluation [i]. *)
Definition entry (nodes : ndarray) (j i : nat) : option Z :=
  match nodes with
  | Array0 _ => None
  | Array1 xs => if decide (j = 0) then xs !! i else None
  | Array2 _ rows => row ← rows !! j; row !! i
  end.

(** ** numpy and mapping primitives *)

(** [v is np.nan] *)
Definition is_np_nan (v : pyval) : bool :=
  match v with PyNan => true | _ => false end.

(** [v is None] *)
Definition is_None (v : pyval) : bool :=
  match v with PyNone => true | _ => false end.

(** [np.ndim(v)], read along the first entries, as it is for a rectangular
    array. *)
Fixpoint ndim (v : pyval) : nat :=
  match v with
  | PyArr [] => 1
  | PyArr (x :: _) => S (ndim x)
  | _ => 0
  end.

(** [np.shape(v)], when [v] is rectangular. *)
Fixpoint shape (v : pyval) : option (list nat) :=
  match v with
  | PyArr items =>
      match shape <$> items with
      | [] => Some [0]
      | Some s :: rest =>
          if forallb (λ o, bool_decide (o = Some s)) rest
          then Some (length items :: s) else None
      | None :: _ => None
      end
  | _ => Some []
  end.

(** The scalars of [v], flattened. *)
Fixpoint leaves (v : pyval) : list pyval :=
  match v with
  | PyArr items => concat (leaves <$> items)
  | _ => [v]
  end.

(** [np.all(np.isnan(v))]: the ufunc refuses ragged input and [None]. *)
Definition np_all_isnan (v : pyval) : res bool :=
  match shape v with
  | None => Err (Raise ValueError ["inhomogeneous shape"])
  | Some _ =>
      if existsb is_None (leaves v)
      then Err (Raise TypeError ["ufunc 'isnan' not supported for the input types"])
      else Ok (forallb is_np_nan (leaves v))
  end.

(** [len(v)] *)
Definition py_len (v : pyval) : res nat :=
  match v with
  | PyArr items => Ok (length items)
  | _ => Err (Raise TypeError ["object has no len()"])
  end.

(** [np.argmax(xs)]: a left-to-right scan that moves only to a strictly
    greater element. *)
Fixpoint argmax_from (best_i best i : nat) (xs : list nat) : nat :=
  match xs with
  | [] => best_i
  | x :: rest =>
      if bool_decide (best < x) then argmax_from i x (S i) rest
      else argmax_from best_i best (S i) rest
  end.

Definition argmax (xs : list nat) : res nat :=
  match xs with
  | [] => Err (Raise ValueError ["attempt to get argmax of an empty sequence"])
  | x :: rest => Ok (argmax_from 0 x 1 rest)
  end.

(** [inter(t)]: a spline evaluated at a number, or pointwise on a 1-D array;
    NaN in, NaN out. *)
Definition spline_at (inter : Interpolation) (x : pyval) : res pyval :=
  match x with
  | PyNum z => Ok (PyNum (spline inter z))
  | PyNan => Ok PyNan
  | _ => Err (Raise ValueError ["x must be a 1-D array of numbers"])
  end.

Definition call (inter : Interpolation) (t : pyval) : res pyval :=
  match t with
  | PyArr items => ys ← map_res (spline_at inter) items; Ok (PyArr ys)
  | _ => spline_at inter t
  end.

(** [d[k]] on an insertion-ordered mapping. *)
Fixpoint dict_get {V} (k : string) (d : list (string * V)) : option V :=
  match d with
  | [] => None
  | (k', v) :: rest => if decide (k' = k) then Some v else dict_get k rest
  end.

Definition getitem (result : Evaluation) (feature : string) : res Envelope :=
  match dict_get feature result with
  | Some env => Ok env
  | None => Err (Raise KeyError [feature])
  end.

Definition field {A} (key : string) (o : option A) : res A :=
  match o with
  | Some a => Ok a
  | None => Err (Raise KeyError [key])
  end.

(** [result[feature]["values"]] and its siblings. *)
Definition get_values (result : Evaluation) (feature : string) : res pyval :=
  env ← getitem result feature; field "values" (values env).

Definition get_time (result : Evaluation) (feature : string) : res pyval :=
  env ← getitem result feature; field "time" (time env).

Definition get_interpolation (result : Evaluation) (feature : string)
    : res Interpolation :=
  env ← getitem result feature; field "interpolation" (interpolation env).

(** [results[0]] *)
Definition first_result (results : list Evaluation) : res Evaluation :=
  match results with
  | r0 :: _ => Ok r0
  | [] => Err (Raise IndexError ["list index out of range"])
  end.

(** ** apply_interpolation *)

Definition apply_interpolation (time_interpolate : list pyval)
    (interpolation : list Interpolation) : res (pyval * pyval) :=
  time_lengths ← map_res py_len time_interpolate;
  index_max_len ← argmax time_lengths;
  match time_interpolate !! index_max_len with
  | None => Err (Raise IndexError ["list index out of range"])
  | Some time =>
      interpolated_results ← map_res (λ inter, call inter time) interpolation;
      Ok (time, PyArr interpolated_results)
  end.

(** ** The Data container *)

(** Modelled from the spec: the Aggregate Dataset ([uncertainpy.data.Data],
    which is not among the sources): keyed by feature name, in registration
    order; each entry holds [time], [evaluations] and [labels]; the dataset
    also holds [model_name] and [uncertain_parameters]. *)
Record DataFeature := {
  data_labels : option (list string);
  data_time : option pyval;
  data_evaluations : option pyval
}.

Record Data := {
  data_features : list string;
  data_items : gmap string DataFeature;
  data_model_name : option string;
  data_uncertain_parameters : option (list string)
}.

Definition empty_feature : DataFeature :=
  {| data_labels := None; data_time := None; data_evaluations := None |}.

Definition Data_new : Data :=
  {| data_features := []; data_items := ∅;
     data_model_name := None; data_uncertain_parameters := None |}.

(** Modelled from the spec: [Data.add_features] registers a feature with an
    empty entry; a name keeps its first position. *)
Definition add_features (feature : string) (data : Data) : Data :=
  {| data_features :=
       if bool_decide (feature ∈ data_features data) then data_features data
       else data_features data ++ [feature];
     data_items := <[feature := empty_feature]> (data_items data);
     data_model_name := data_model_name data;
     data_uncertain_parameters := data_uncertain_parameters data |}.

Definition update_feature (feature : string) (f : DataFeature → DataFeature)
    (data : Data) : Data :=
  {| data_features := data_features data;
     data_items := alter f feature (data_items data);
     data_model_name := data_model_name data;
     data_uncertain_parameters := data_uncertain_parameters data |}.

Definition set_labels (l : list string) (d : DataFeature) : DataFeature :=
  {| data_labels := Some l; data_time := data_time d;
     data_evaluations := data_evaluations d |}.

Definition set_time_evaluations (t e : pyval) (d : DataFeature) : DataFeature :=
  {| data_labels := data_labels d; data_time := Some t;
     data_evaluations := Some e |}.

Definition set_model_name (n : string) (data : Data) : Data :=
  {| data_features := data_features data; data_items := data_items data;
     data_model_name := Some n;
     data_uncertain_parameters := data_uncertain_parameters data |}.

Definition set_uncertain_parameters (l : list string) (data : Data) : Data :=
  {| data_features := data_features data; data_items := data_items data;
     data_model_name := data_model_name data;
     data_uncertain_parameters := Some l |}.

(** ** results_to_data: registering and storing *)

(** Line 239: the feature is interpolated. *)
Definition is_adaptive (self : RunModel) (feature : string) : bool :=
  bool_decide (feature ∈ features_adaptive (features self))
  || (bool_decide (feature = model_name (model self))
      && model_adaptive (model self) && negb (model_ignore (model self))).

(** Line 229: the feature must pass the regularity check. *)
Definition must_be_regular (self : RunModel) (feature : string) : bool :=
  (bool_decide (feature = model_name (model self))
   && negb (model_ignore (model self) || model_adaptive (model self)))
  || (negb (bool_decide (feature = model_name (model self)))
      && negb (bool_decide (feature ∈ features_adaptive (features self)))).

Definition irregular_msg (feature : string) : string :=
  feature +:+ ": The number of points varies between evaluations."
  +:+ " Try setting adaptive to True in " +:+ feature.

Definition not_implemented_msg (feature : string) : string :=
  "Feature: " +:+ feature +:+ "," +:+ " no support for >= 2D interpolation".

Definition warning_0d_msg (feature : string) : string :=
  feature +:+ " " +:+ "gives a 0D result. No interpolation performed".

Definition no_time_msg (self : RunModel) (feature : string) : string :=
  if bool_decide (feature = model_name (model self))
  then model_name (model self)
       +:+ " has no valid time values to use in the interpolation"
  else "Neither " +:+ feature +:+ " or " +:+ model_name (model self)
       +:+ " has valid time values to use in the interpolation".

(** [except (TypeError, ValueError) as error: error.args += (msg,); raise] *)
Definition reraise {A} (msg : string) (r : res A) : res A :=
  match r with
  | Err (Raise kind args) =>
      if bool_decide (kind = TypeError ∨ kind = ValueError)
      then Err (Raise kind ((match args with [] => [""] | _ => args end) ++ [msg]))
      else r
  | Ok _ => r
  end.

(** Lines 214-222: register the features of the first result. *)
Definition add_feature_labels (self : RunModel) (data : Data)
    (feature : string) : Data :=
  let data := add_features feature data in
  if bool_decide (feature = model_name (model self))
  then update_feature feature (set_labels (model_labels (model self))) data
  else match features_labels (features self) !! feature with
       | Some l => update_feature feature (set_labels l) data
       | None => data
       end.

(** Lines 211-222: the dataset with the features of the first result
    registered and labelled. *)
Definition register_features (self : RunModel) (r0 : Evaluation) : Data :=
  set_model_name (model_name (model self))
    (foldl (add_feature_labels self) Data_new r0.*1).

(** Lines 251-295: one turn of the loop that gathers, for an adaptive 1-D
    feature, the time arrays and interpolation objects. *)
Definition gather (self : RunModel) (feature : string)
    (acc : list pyval * list Interpolation) (result : Evaluation)
    : res (list pyval * list Interpolation) :=
  let '(time_interpolate, interpolations) := acc in
  '(time_interpolate, time_exists) ←
    reraise
      (feature +:+ ": the time of is most likely not regular, unable to interpolate")
      (t ← get_time result feature;
       invalid ← np_all_isnan t;
       if negb invalid then Ok (time_interpolate ++ [t], true)
       else Ok (time_interpolate, false));
  '(time_interpolate, time_exists) ←
    reraise
      ("No valid time for {feature}, attempted to use the time of {model}. "
       +:+ model_name (model self)
       +:+ " time is most likely not regular, unable to interpolate")
      (if bool_decide (feature = model_name (model self)) || negb time_exists then
         t ← get_time result (model_name (model self));
         invalid ← np_all_isnan t;
         if negb invalid then Ok (time_interpolate ++ [t], true)
         else Ok (time_interpolate, time_exists)
       else Ok (time_interpolate, time_exists));
  if negb time_exists then Err (Raise ValueError [no_time_msg self feature])
  else
    inter ← get_interpolation result feature;
    Ok (time_interpolate, interpolations ++ [inter]).

(** [for result in results: evaluations.append(result[feature]["values"])] *)
Definition raw_values (results : list Evaluation) (feature : string)
    : res (list pyval) :=
  map_res (λ result, get_values result feature) results.

(** Lines 237-326: one turn of the storing loop. *)
Definition store_feature (self : RunModel) (results : list Evaluation)
    (data : Data) (feature : string) : M Data :=
  if is_adaptive self feature then
    v0 ← lift (r0 ← first_result results; get_values r0 feature);
    if bool_decide (2 ≤ ndim v0) then
      raise (Raise NotImplementedError [not_implemented_msg feature])
    else if bool_decide (ndim v0 = 1) then
      '(time_interpolate, interpolations) ←
        lift (for_res (gather self feature) results ([], []));
      '(t, evaluations) ←
        lift (apply_interpolation time_interpolate interpolations);
      mret (update_feature feature (set_time_evaluations t evaluations) data)
    else
      emit (LogWarning (warning_0d_msg feature));;
      t ← lift (r0 ← first_result results; get_time r0 feature);
      evaluations ← lift (raw_values results feature);
      mret (update_feature feature
              (set_time_evaluations t (PyArr evaluations)) data)
  else if bool_decide (feature = model_name (model self))
          && model_ignore (model self) then
    '(evaluations, times) ←
      lift (for_res (λ '(evaluations, times) result,
                       v ← get_values result feature;
                       t ← get_time result feature;
                       Ok (evaluations ++ [v], times ++ [t]))
                    results ([], []));
    mret (update_feature feature
            (set_time_evaluations (PyArr times) (PyArr evaluations)) data)
  else
    t ← lift (r0 ← first_result results; get_time r0 feature);
    evaluations ← lift (raw_values results feature);
    mret (update_feature feature
            (set_time_evaluations t (PyArr evaluations)) data).

(** Lines 237-326: the storing loop. *)
Definition store_results (self : RunModel) (results : list Evaluation)
    (data : Data) : M Data :=
  for_M (store_feature self results) (data_features data) data.

(** ** evaluate_nodes *)

(** The order in which the workers of the pool finish: any order [sched],
    and every task finishes once. *)
Definition completion_order (n : nat) (sched : list nat) : list nat :=
  let early := remove_dups (filter (λ i, i < n) sched) in
  early ++ filter (λ i, i ∉ early) (seq 0 n).

(** The pool keeps each finished task's outcome under the task's index. *)
Definition pool_slots {A B} (f : A → res B) (tasks : list A)
    (order : list nat) : gmap nat (res B) :=
  foldl (λ slots i,
           match tasks !! i with
           | Some task => <[i := f task]> slots
           | None => slots
           end) ∅ order.

(** The iterator of [pool.imap] hands the outcomes over by index, and
    re-raises a worker's exception when its turn comes. *)
Fixpoint imap_next {B} (slots : gmap nat (res B)) (i n : nat) : res (list B) :=
  match n with
  | 0 => Ok []
  | S n' =>
      match slots !! i with
      | None => Ok []
      | Some r => result ← r; results ← imap_next slots (S i) n'; Ok (result :: results)
      end
  end.

(** [for result in pool.imap(f, tasks): results.append(result)] *)
Definition pool_imap {A B} (f : A → res B) (tasks : list A) (sched : list nat)
    : M (list B) :=
  let order := completion_order (length tasks) sched in
  Run (WorkerDone <$> order)
      (imap_next (pool_slots f tasks order) 0 (length tasks)).

(** [prerequisites] is the module-level flag: [xvfbwrapper] was imported. *)
Definition evaluate_nodes (prerequisites : bool) (sched : list nat)
    (self : RunModel) (nodes : ndarray) (uncertain_parameters : list string)
    : M (list Evaluation) :=
  (if model_suppress_graphics (model self) then
     if negb prerequisites then
       raise (Raise ImportError
                ["Running with suppress_graphics require: xvfbwrapper"])
     else emit XvfbStart
   else mret tt);;
  emit (PoolOpen (CPUs self));;
  model_parameters ← lift (create_model_parameters self nodes uncertain_parameters);
  results ← pool_imap (parallel_run self) model_parameters sched;
  emit PoolClose;;
  (if model_suppress_graphics (model self) then emit XvfbStop else mret tt);;
  mret results.

(** ** is_regular, results_to_data and run

    [uncertainpy.utils.utility.lengths] is not among the sources; the code
    below only compares its results, so it is a parameter here. *)

Section regularity.
Context {L : Type} `{EqDecision L} (lengths : pyval → L).

(** The first loop of [is_regular]: the position after, and the values of,
    the first evaluation that is neither [np.nan] nor [None]; [values_prev]
    stays unbound when there is none. *)
Fixpoint first_valid (feature : string) (results : list Evaluation) (i : nat)
    : res (nat * option pyval) :=
  match results with
  | [] => Ok (i, None)
  | result :: rest =>
      v ← get_values result feature;
      if negb (is_np_nan v) && negb (is_None v) then Ok (S i, Some v)
      else first_valid feature rest (S i)
  end.

(** The second loop of [is_regular], over [results[i:]]. *)
Fixpoint compare_lengths (feature : string) (results : list Evaluation)
    (values_prev : option pyval) : res bool :=
  match results with
  | [] => Ok true
  | result :: rest =>
      values ← get_values result feature;
      if negb (is_np_nan values) || negb (is_None values) then
        match values_prev with
        | None => Err (Raise UnboundLocalError ["values_prev"])
        | Some prev =>
            if bool_decide (lengths prev ≠ lengths values) then Ok false
            else compare_lengths feature rest (Some values)
        end
      else compare_lengths feature rest values_prev
  end.

Definition is_regular (results : list Evaluation) (feature : string) : res bool :=
  '(i, values_prev) ← first_valid feature results 0;
  compare_lengths feature (drop i results) values_prev.

(** Lines 228-233: one turn of the regularity loop. *)
Definition check_feature (self : RunModel) (results : list Evaluation)
    (_ : unit) (feature : string) : res unit :=
  if must_be_regular self feature then
    regular ← is_regular results feature;
    if negb regular then Err (Raise ValueError [irregular_msg feature])
    else Ok tt
  else Ok tt.

(** Lines 228-233: the regularity loop. *)
Definition check_regularity (self : RunModel) (results : list Evaluation)
    (data : Data) : res unit :=
  for_res (check_feature self results) (data_features data) tt.

Definition results_to_data (self : RunModel) (results : list Evaluation)
    : M Data :=
  r0 ← lift (first_result results);
  let data := register_features self r0 in
  lift (check_regularity self results data);;
  store_results self results data.

(** [uncertain_parameters] is one name or a list of names. *)
Definition run (prerequisites : bool) (sched : list nat) (self : RunModel)
    (nodes : ndarray) (uncertain_parameters : string + list string) : M Data :=
  let uncertain_parameters :=
    match uncertain_parameters with
    | inl name => [name]
    | inr names => names
    end in
  results ← evaluate_nodes prerequisites sched self nodes uncertain_parameters;
  data ← results_to_data self results;
  mret (set_uncertain_parameters uncertain_parameters data).

End regularity.

(** ** regularize_nan_results *)

(** The method changes the envelopes of [results] in place. The evaluations
    are taken to hold envelopes of their own, no two features sharing one, so
    that an assignment to [results[i][feature][data]] is seen under that
    evaluation and that feature only; a list that holds one evaluation twice
    is covered, since the assignment gives the entry the reference shape and
    the second visit then leaves it. *)

(** [np.shape(v)] *)
Definition np_shape (v : pyval) : res (list nat) :=
  match shape v with
  | Some s => Ok s
  | None => Err (Raise ValueError ["inhomogeneous shape"])
  end.

(** [np.full(shape, np.nan, dtype=float)]; the array without dimension that
    holds NaN is [PyNan]. *)
Fixpoint np_full_nan (s : list nat) : pyval :=
  match s with
  | [] => PyNan
  | n :: s' => PyArr (replicate n (np_full_nan s'))
  end.

(** The key [regularize] works on: ["values"] or ["time"]. *)
Inductive data_key :=
| Values
| Time.

#[global] Instance data_key_eq_dec : EqDecision data_key.
Proof. solve_decision. Defined.

(** [result[feature][data]] *)
Definition get_data (data : data_key) (result : Evaluation) (feature : string)
    : res pyval :=
  match data with
  | Values => get_values result feature
  | Time => get_time result feature
  end.

(** [envelope[data] = v] *)
Definition set_data (data : data_key) (v : pyval) (env : Envelope) : Envelope :=
  match data with
  | Values => {| values := Some v; time := time env;
                 interpolation := interpolation env |}
  | Time => {| values := values env; time := Some v;
               interpolation := interpolation env |}
  end.

(** A change of [d[k]] in place, for a key that is there. *)
Fixpoint dict_alter {V} (f : V → V) (k : string) (d : list (string * V))
    : list (string * V) :=
  match d with
  | [] => []
  | (k', v) :: rest =>
      if decide (k' = k) then (k', f v) :: rest
      else (k', v) :: dict_alter f k rest
  end.

(** The first loop of [regularize] for one feature: the shape of the first
    result that is not only NaN, or [shape] when there is none. *)
Fixpoint first_valid_shape (data : data_key) (feature : string)
    (results : list Evaluation) (shape : list nat) : res (list nat) :=
  match results with
  | [] => Ok shape
  | result :: rest =>
      values ← get_data data result feature;
      only_nan ← np_all_isnan values;
      if negb only_nan then np_shape values
      else first_valid_shape data feature rest shape
  end.

(** One turn of the second loop of [regularize]. *)
Definition regularize_entry (data : data_key) (feature : string)
    (shape : list nat) (result : Evaluation) : res Evaluation :=
  values ← get_data data result feature;
  only_nan ← np_all_isnan values;
  if (only_nan : bool) then
    (s ← np_shape values;
     if bool_decide (s ≠ shape)
     then Ok (dict_alter (set_data data (np_full_nan shape)) feature result)
     else Ok result)
  else Ok result.

(** One turn of the loop over the features. *)
Definition regularize_feature (data : data_key) (results : list Evaluation)
    (feature : string) : res (list Evaluation) :=
  r0 ← first_result results;
  v0 ← get_data data r0 feature;
  shape ← np_shape v0;
  shape ← first_valid_shape data feature results shape;
  map_res (regularize_entry data feature shape) results.

Definition regularize (results : list Evaluation) (data : data_key)
    : res (list Evaluation) :=
  r0 ← first_result results;
  for_res (regularize_feature data) r0.*1 results.

(** What [warnings.warn] issues. *)
Inductive py_warning := DeprecationWarning (msg : string).

(** The warnings issued, and the regularized results. *)
Definition regularize_nan_results (results : list Evaluation)
    : list py_warning * res (list Evaluation) :=
  ([DeprecationWarning
      "regularize_nan_results is no longer used as nan results no longer are required to be regular."],
   results ← regularize results Values;
   regularize results Time).

(** ** Notions the properties are stated with *)

(** Modelled from the spec: the "length" of an output, which the regularity
    checker compares ([uncertainpy.utils.utility.lengths], not among the
    sources): the size of the outermost dimension, or 1 for scalars. *)
Definition lengths (v : pyval) : nat :=
  match v with
  | PyArr items => length items
  | _ => 1
  end.

(** Neither [np.nan] nor [None]. *)
Definition is_valid (v : pyval) : bool :=
  negb (is_np_nan v) && negb (is_None v).

(** The regularity check in the spec's words: skip the evaluations whose
    values are the invalid marker; the feature is regular iff every remaining
    length equals that of the first. *)
Definition is_regular_spec {L : Type} `{EqDecision L} (lengths : pyval → L)
    (results : list Evaluation) (feature : string) : res bool :=
  vs ← raw_values results feature;
  Ok (match filter (λ v, is_valid v = true) vs with
      | [] => true
      | v :: rest => forallb (λ w, bool_decide (lengths w = lengths v)) rest
      end).

(** The values from the first valid one on. *)
Fixpoint skip_invalid (vs : list pyval) : list pyval :=
  match vs with
  | [] => []
  | v :: rest => if is_valid v then v :: rest else skip_invalid rest
  end.

(** A 1-D array of numbers, NaN allowed. *)
Definition is_time_array (v : pyval) : bool :=
  match v with
  | PyArr items =>
      forallb (λ x, match x with PyNum _ | PyNan => true | _ => false end) items
  | _ => false
  end.

(** The entry of [feature] in [data] holds the time [t] and the evaluations
    [e]. *)
Definition stored (feature : string) (t e : pyval) (data : Data) : Prop :=
  ∃ d, data_items data !! feature = Some d
    ∧ data_time d = Some t ∧ data_evaluations d = Some e.


(** ** Concrete inputs *)

Definition nums (l : list Z) : pyval := PyArr (PyNum <$> l).

(** The time array [0, 1, .., n-1], shifted by [from]. *)
Definition time_points (from : Z) (n : nat) : pyval :=
  PyArr ((λ k, PyNum (from + Z.of_nat k)) <$> seq 0 n).

Definition envelope (v t : pyval) : Envelope :=
  {| values := Some v; time := Some t; interpolation := None |}.

Definition envelope_adaptive (v t : pyval) (f : Z → Z) : Envelope :=
  {| values := Some v; time := Some t;
     interpolation := Some {| spline := f |} |}.

Definition matrix_2x2 : pyval := PyArr [nums [1; 2]%Z; nums [3; 4]%Z].

(** The spec's example: nominal values [a = 0], [b = 0], [c = 5] and a model
    [m] without features. *)
Definition spec_example : RunModel := {|
  model := {| model_name := "m"; model_labels := []; model_adaptive := false;
              model_ignore := false; model_suppress_graphics := false |};
  parameters := [ {| parameter_name := "a"; parameter_value := 0 |};
                  {| parameter_name := "b"; parameter_value := 0 |};
                  {| parameter_name := "c"; parameter_value := 5 |} ];
  features := {| features_adaptive := []; features_labels := ∅ |};
  CPUs := 1;
  parallel_run := λ _, Ok []
|}.

(** The model [m] with an adaptive feature [f] and a plain feature [a]. *)
Definition adaptive_f : RunModel := {|
  model := model spec_example;
  parameters := parameters spec_example;
  features := {| features_adaptive := ["f"]; features_labels := ∅ |};
  CPUs := 1;
  parallel_run := λ _, Ok []
|}.

(** A model that suppresses graphics and whose evaluation raises. *)
Definition failing_headless : RunModel := {|
  model := {| model_name := "m"; model_labels := []; model_adaptive := false;
              model_ignore := false; model_suppress_graphics := true |};
  parameters := [ {| parameter_name := "a"; parameter_value := 0 |} ];
  features := {| features_adaptive := []; features_labels := ∅ |};
  CPUs := 2;
  parallel_run := λ _, Err (Raise ValueError ["the model failed"])
|}.

(** A model that suppresses graphics and returns its parameter [a] as a
    scalar output. *)
Definition echo_headless : RunModel := {|
  model := model failing_headless;
  parameters := parameters failing_headless;
  features := features failing_headless;
  CPUs := 2;
  parallel_run := λ ps : gmap string Z,
    Ok [("m", envelope (PyNum (default 0%Z (ps !! "a"))) PyNan)]
|}.

Definition times_5_8_3 : list pyval :=
  [time_points 0 5; time_points 0 8; time_points 0 3].

Definition times_tie : list pyval :=
  [time_points 0 3; time_points 0 5; time_points 10 5].

Definition three_splines : list Interpolation :=
  [ {| spline := Z.succ |}; {| spline := Z.double |}; {| spline := λ z, z |} ].

(** Two evaluations of three points with an invalid one in between. *)
Definition results_valid_invalid_valid : list Evaluation :=
  [ [("feature1d", envelope (nums [1; 2; 3]%Z) (nums [0; 1; 2]%Z))];
    [("feature1d", envelope PyNan PyNan)];
    [("feature1d", envelope (nums [4; 5; 6]%Z) (nums [0; 1; 2]%Z))] ].

(** An adaptive feature whose own time is invalid, next to the model. *)
Definition result_feature_without_time : Evaluation :=
  [ ("m", envelope_adaptive (nums [1; 2; 3]%Z) (nums [0; 1; 2]%Z) Z.succ);
    ("f", envelope_adaptive (nums [7; 8]%Z) (PyArr [PyNan; PyNan]) Z.double) ].

(** The model's output has three points in one evaluation and two in the
    other. *)
Definition results_irregular : list Evaluation :=
  [ [("m", envelope (nums [1; 2; 3]%Z) (nums [0; 1; 2]%Z))];
    [("m", envelope (nums [1; 2]%Z) (nums [0; 1]%Z))] ].



(** [f] is a scalar in every evaluation. *)
Definition results_0d : list Evaluation :=
  [ [("f", envelope (PyNum 4) PyNan)];
    [("f", envelope (PyNum 5) PyNan)];
    [("f", envelope (PyNum 6) PyNan)] ].


(** An invalid evaluation before two valid ones of three points. *)
Definition results_invalid_first : list Evaluation :=
  [ [("feature1d", envelope PyNan PyNan)];
    [("feature1d", envelope (nums [1; 2; 3]%Z) (nums [0; 1; 2]%Z))];
    [("feature1d", envelope (nums [4; 5; 6]%Z) (nums [0; 1; 2]%Z))] ].

(** An adaptive feature with a time of its own, and no entry for the model. *)
Definition result_feature_alone : Evaluation :=
  [ ("f", envelope_adaptive (nums [7; 8]%Z) (nums [0; 1]%Z) Z.double) ].

(** An adaptive feature whose time is ragged. *)
Definition result_ragged_time : Evaluation :=
  [ ("m", envelope_adaptive (nums [1; 2; 3]%Z) (nums [0; 1; 2]%Z) Z.succ);
    ("f", envelope_adaptive (nums [7; 8]%Z)
            (PyArr [PyNum 1; nums [1; 2]%Z]) Z.double) ].

(** Two evaluations of the adaptive model [m] and the adaptive feature [f]. *)
Definition results_adaptive : list Evaluation :=
  [ [("m", envelope_adaptive (nums [1; 2; 3]%Z) (nums [0; 1; 2]%Z) Z.succ);
     ("f", envelope_adaptive (nums [7; 8]%Z) (nums [0; 1]%Z) Z.double)];
    [("m", envelope_adaptive (nums [1; 2]%Z) (nums [0; 2]%Z) Z.succ);
     ("f", envelope_adaptive (nums [7; 8; 9]%Z) (PyArr [PyNan; PyNan; PyNan])
             Z.double)] ].

(** The labels [results_to_data] attaches to a feature: the model's for the
    model's own output, else the entry of [features.labels], if any. *)
Definition labels_of (self : RunModel) (feature : string) : option (list string) :=
  if bool_decide (feature = model_name (model self))
  then Some (model_labels (model self))
  else features_labels (features self) !! feature.

(** Three evaluations of the scalar model [m] next to a plain feature [a]. *)
Definition results_plain : list Evaluation :=
  [ [("m", envelope (PyNum 4) PyNan); ("a", envelope (nums [1; 2]%Z) (nums [0; 1]%Z))];
    [("m", envelope (PyNum 5) PyNan); ("a", envelope (nums [3; 4]%Z) (nums [0; 1]%Z))];
    [("m", envelope (PyNum 6) PyNan); ("a", envelope (nums [5; 6]%Z) (nums [0; 1]%Z))] ].

(** The dataset of [results_plain]. *)
Definition data_plain : Data :=
  update_feature "a"
    (set_time_evaluations (nums [0; 1]%Z)
       (PyArr [nums [1; 2]%Z; nums [3; 4]%Z; nums [5; 6]%Z]))
    (update_feature "m"
       (set_time_evaluations PyNan (PyArr [PyNum 4; PyNum 5; PyNum 6]))
       (register_features spec_example
          [("m", envelope (PyNum 4) PyNan);
           ("a", envelope (nums [1; 2]%Z) (nums [0; 1]%Z))])).

(** A model whose own output is ignored, with a plain feature [a]. *)
Definition ignoring : RunModel := {|
  model := {| model_name := "m"; model_labels := ["t"; "u"];
              model_adaptive := false; model_ignore := true;
              model_suppress_graphics := false |};
  parameters := [];
  features := {| features_adaptive := []; features_labels := ∅ |};
  CPUs := 1;
  parallel_run := λ _, Ok []
|}.

(** The model's output has a different shape in each evaluation. *)
Definition results_ignored : list Evaluation :=
  [ [("m", envelope (nums [1; 2; 3]%Z) (nums [0; 1; 2]%Z))];
    [("m", envelope PyNan PyNan)];
    [("m", envelope matrix_2x2 (nums [0; 1]%Z))] ].


(** [result[feature][data]] can be read and is only NaN. *)
Definition only_nan (data : data_key) (feature : string) (r : Evaluation)
    : Prop :=
  ∃ v, get_data data r feature = Ok v ∧ np_all_isnan v = Ok true.

(** [result[feature][data]] can be read and [np.isnan] accepts it. *)
Definition readable (data : data_key) (feature : string) (r : Evaluation)
    : Prop :=
  ∃ v b, get_data data r feature = Ok v ∧ np_all_isnan v = Ok b.

(** What [regularize_nan_results] may do to one evaluation: the keys and the
    interpolation objects stay, and an entry either stays or goes from only
    NaN to only NaN. *)
Definition regularized (r r' : Evaluation) : Prop :=
  r'.*1 = r.*1
  ∧ ∀ g, get_interpolation r' g = get_interpolation r g
       ∧ ∀ k, get_data k r' g = get_data k r g
              ∨ (only_nan k g r ∧ only_nan k g r').

(** In [results] the entries [data] of [feature] that are only NaN have the
    shape [s], and so has the first entry that is not only NaN, if any. *)
Definition uniform (data : data_key) (feature : string) (s : list nat)
    (results : list Evaluation) : Prop :=
  (∀ r v, r ∈ results → get_data data r feature = Ok v →
          np_all_isnan v = Ok true → shape v = Some s)
  ∧ (∀ pre r post v,
       results = pre ++ r :: post →
       Forall (only_nan data feature) pre →
       get_data data r feature = Ok v → np_all_isnan v = Ok false →
       shape v = Some s).

(** What [regularize_nan_results] needs of its input: there is a first
    evaluation, and under each of its features every evaluation holds values
    and a time that [np.isnan] accepts. *)
Definition well_formed (results : list Evaluation) : Prop :=
  ∃ r0, first_result results = Ok r0
        ∧ ∀ g r k, g ∈ r0.*1 → r ∈ results → readable k g r.

(** A feature that is a scalar NaN, then three points, then NaN twice. *)
Definition results_nan_shapes : list Evaluation :=
  [ [("f", envelope PyNan PyNan)];
    [("f", envelope (nums [1; 2; 3]%Z) (nums [0; 1; 2]%Z))];
    [("f", envelope (PyArr [PyNan; PyNan]) PyNan)] ].

(** [results_nan_shapes] with its NaN entries brought to three points. *)
Definition results_nan_shapes_regular : list Evaluation :=
  [ [("f", envelope (PyArr [PyNan; PyNan; PyNan]) (PyArr [PyNan; PyNan; PyNan]))];
    [("f", envelope (nums [1; 2; 3]%Z) (nums [0; 1; 2]%Z))];
    [("f", envelope (PyArr [PyNan; PyNan; PyNan]) (PyArr [PyNan; PyNan; PyNan]))] ].


(** * Properties *)

(** ** The effect layers *)

Lemma map_res_Ok {A B} (f : A → res B) (xs : list A) (ys : list B) :
  map_res f xs = Ok ys ↔ Forall2 (λ x y, f x = Ok y) xs ys.
Proof.
  revert ys. induction xs as [|x xs IH]; intros ys; simpl.
  - split.
    + intros [= <-]. constructor.
    + intros Hall. inversion Hall. reflexivity.
  - split.
    + destruct (f x) as [y|e] eqn:Hfx; simpl; [|discriminate].
      destruct (map_res f xs) as [ys'|e] eqn:Hrest; simpl; [|discriminate].
      intros [= <-]. constructor; [assumption|]. apply IH. reflexivity.
    + intros Hall. inversion Hall as [|? y ? ys' Hfx Hrest]; subst.
      rewrite Hfx. simpl. apply IH in Hrest. rewrite Hrest. reflexivity.
Qed.

Lemma map_res_total {A B} (f : A → res B) (xs : list A) :
  Forall (λ x, ∃ y, f x = Ok y) xs → ∃ ys, map_res f xs = Ok ys.
Proof.
  induction 1 as [|x xs [y Hy] _ [ys Hys]]; simpl.
  - eexists. reflexivity.
  - rewrite Hy. simpl. rewrite Hys. simpl. eexists. reflexivity.
Qed.

Lemma map_res_length {A B} (f : A → res B) (xs : list A) (ys : list B) :
  map_res f xs = Ok ys → length ys = length xs.
Proof.
  intros Hmap. apply map_res_Ok in Hmap.
  symmetry. eapply Forall2_length. eassumption.
Qed.

Lemma map_res_lookup {A B} (f : A → res B) (xs : list A) (ys : list B) :
  map_res f xs = Ok ys →
  ∀ i x, xs !! i = Some x → ∃ y, ys !! i = Some y ∧ f x = Ok y.
Proof.
  intros Hmap%map_res_Ok i x Hx.
  destruct (Forall2_lookup_l _ _ _ _ _ Hmap Hx) as (y & Hy & Hfx).
  exists y. split; assumption.
Qed.

Lemma bind_Ok {A B} (m : res A) (f : A → res B) (y : B) :
  m ≫= f = Ok y ↔ ∃ x, m = Ok x ∧ f x = Ok y.
Proof.
  destruct m as [x|e]; simpl; split.
  - intros Hf. exists x. split; [reflexivity|exact Hf].
  - intros (x' & [= <-] & Hf). exact Hf.
  - discriminate.
  - intros (x' & [=] & _).
Qed.

Lemma for_res_app {A B} (body : B → A → res B) (xs ys : list A) (acc : B) :
  for_res body (xs ++ ys) acc = (acc' ← for_res body xs acc; for_res body ys acc').
Proof.
  revert acc. induction xs as [|x xs IH]; intros acc; simpl; [reflexivity|].
  destruct (body acc x) as [acc'|e]; simpl; [apply IH|reflexivity].
Qed.

Lemma lift_Ok_bind {A B} (a : A) (f : A → M B) : lift (Ok a) ≫= f = f a.
Proof. unfold lift. simpl. destruct (f a). reflexivity. Qed.

Lemma mret_bind {A B} (a : A) (f : A → M B) : mret a ≫= f = f a.
Proof. exact (lift_Ok_bind a f). Qed.

Lemma lift_Err_bind {A B} (e : exn) (f : A → M B) :
  lift (Err e) ≫= f = Run [] (Err e).
Proof. reflexivity. Qed.

Lemma emit_bind {B} (ev : event) (f : unit → M B) :
  emit ev ≫= f = Run (ev :: trace (f tt)) (outcome (f tt)).
Proof. unfold emit. simpl. destruct (f tt). reflexivity. Qed.

Lemma M_bind_Run {A B} (t : list event) (a : A) (f : A → M B) :
  Run t (Ok a) ≫= f = Run (t ++ trace (f a)) (outcome (f a)).
Proof. simpl. destruct (f a). reflexivity. Qed.

Lemma M_bind_Ok_inv {A B} (m : M A) (f : A → M B) (tr : list event) (b : B) :
  m ≫= f = Run tr (Ok b) →
  ∃ t1 a t2, m = Run t1 (Ok a) ∧ f a = Run t2 (Ok b) ∧ tr = t1 ++ t2.
Proof.
  destruct m as [t1 [a|e]]; simpl; [|discriminate].
  destruct (f a) as [t2 o] eqn:Hfa. intros [= <- ->].
  exists t1, a, t2. repeat split; assumption.
Qed.



Lemma filter_all {A} (P : A → Prop) `{∀ x, Decision (P x)} (l : list A) :
  Forall P l → filter P l = l.
Proof.
  induction 1 as [|x l Hx _ IH]; [reflexivity|].
  rewrite filter_cons_True by exact Hx. rewrite IH. reflexivity.
Qed.


(** ** create_model_parameters *)

Lemma assign_nodes_spec (names : list string) :
  ∀ (j : nat) (node : list Z) (params : gmap string Z),
    j + length names ≤ length node →
    ∃ ps, assign_nodes j names node params = Ok ps
      ∧ (∀ x, x ∉ names → ps !! x = params !! x)
      ∧ (∀ k x, names !! k = Some x →
           (∀ k', k < k' → names !! k' ≠ Some x) →
           ps !! x = node !! (j + k)).
Proof.
  induction names as [|p names IH]; intros j node params Hlen; simpl in *.
  - exists params. split; [reflexivity|]. split; [reflexivity|].
    intros k x Hk. rewrite lookup_nil in Hk. discriminate.
  - destruct (node !! j) as [v|] eqn:Hj.
    2:{ apply lookup_ge_None in Hj. lia. }
    destruct (IH (S j) node (<[p := v]> params)) as (ps & Hps & Hout & Hin); [lia|].
    exists ps. split; [assumption|]. split.
    + intros x Hx. apply not_elem_of_cons in Hx as [Hne Hx].
      rewrite (Hout x Hx). apply lookup_insert_ne. congruence.
    + intros [|k] x Hk Hlast; simpl in Hk.
      * injection Hk as ->.
        assert (x ∉ names) as Hx.
        { intros (k' & Hk')%list_elem_of_lookup.
          apply (Hlast (S k')); [lia|]. exact Hk'. }
        rewrite (Hout x Hx), lookup_insert_eq, Nat.add_0_r. symmetry. exact Hj.
      * replace (j + S k) with (S j + k) by lia.
        apply Hin; [exact Hk|].
        intros k' Hlt. apply (Hlast (S k')). lia.
Qed.

Lemma fill_nominal_lookup (ps : list Param) :
  ∀ (params : gmap string Z) (x : string),
    fill_nominal ps params !! x
    = match params !! x with
      | Some v => Some v
      | None => nominal ps x
      end.
Proof.
  induction ps as [|p ps IH]; intros params x; simpl.
  - destruct (params !! x); reflexivity.
  - rewrite IH. destruct (decide (parameter_name p = x)) as [->|Hne].
    + destruct (params !! x) eqn:Hx; [rewrite Hx; reflexivity|].
      rewrite lookup_insert_eq. reflexivity.
    + destruct (params !! parameter_name p); [reflexivity|].
      rewrite lookup_insert_ne by exact Hne. reflexivity.
Qed.

Lemma column_lookup (n i : nat) (rows : list (list Z)) :
  Forall (λ row, length row = n) rows → i < n →
  ∀ j, column i rows !! j = (row ← rows !! j; row !! i).
Proof.
  intros Hwf Hi. unfold column.
  induction Hwf as [|row rows Hrow _ IH]; intros j; simpl.
  - rewrite !lookup_nil. reflexivity.
  - destruct (row !! i) as [v|] eqn:Hv.
    2:{ apply lookup_ge_None in Hv. lia. }
    destruct j as [|j]; simpl; [exact (eq_sym Hv)|apply IH].
Qed.

Lemma column_length (n i : nat) (rows : list (list Z)) :
  Forall (λ row, length row = n) rows → i < n →
  length (column i rows) = length rows.
Proof.
  intros Hwf Hi. unfold column.
  induction Hwf as [|row rows Hrow _ IH]; simpl; [reflexivity|].
  destruct (row !! i) as [v|] eqn:Hv.
  2:{ apply lookup_ge_None in Hv. lia. }
  simpl. f_equal. exact IH.
Qed.

(** What [create_model_parameters] builds from one column [node]. *)
Lemma bind_column (self : RunModel) (names : list string) (node : list Z) :
  length names ≤ length node →
  ∃ ps,
    (params ← assign_nodes 0 names node ∅;
     Ok (fill_nominal (parameters self) params)) = Ok ps
    ∧ (∀ j x, names !! j = Some x →
         (∀ j', j < j' → names !! j' ≠ Some x) →
         is_Some (node !! j) ∧ ps !! x = node !! j)
    ∧ (∀ x, x ∉ names → ps !! x = nominal (parameters self) x).
Proof.
  intros Hlen.
  destruct (assign_nodes_spec names 0 node ∅) as (params & Hps & Hout & Hin);
    [simpl; lia|].
  exists (fill_nominal (parameters self) params).
  rewrite Hps. split; [reflexivity|]. split.
  - intros j x Hj Hlast.
    assert (is_Some (node !! j)) as Hsome.
    { apply lookup_lt_is_Some. apply lookup_lt_Some in Hj. lia. }
    split; [exact Hsome|].
    rewrite fill_nominal_lookup, (Hin j x Hj Hlast). simpl.
    destruct Hsome as [v ->]. reflexivity.
  - intros x Hx. rewrite fill_nominal_lookup, (Hout x Hx), lookup_empty.
    reflexivity.
Qed.

Lemma bind_columns (self : RunModel) (names : list string) (cols : list node) :
  Forall (λ node, length names ≤ length (as_sequence node)) cols →
  ∃ sets,
    map_res (λ node,
      params ← assign_nodes 0 names (as_sequence node) ∅;
      Ok (fill_nominal (parameters self) params)) cols = Ok sets
    ∧ length sets = length cols
    ∧ ∀ i node, cols !! i = Some node →
        ∃ ps, sets !! i = Some ps
          ∧ (∀ j x, names !! j = Some x →
               (∀ j', j < j' → names !! j' ≠ Some x) →
               is_Some (as_sequence node !! j) ∧ ps !! x = as_sequence node !! j)
          ∧ (∀ x, x ∉ names → ps !! x = nominal (parameters self) x).
Proof.
  intros Hcols.
  destruct (map_res_total
              (λ node, params ← assign_nodes 0 names (as_sequence node) ∅;
                       Ok (fill_nominal (parameters self) params)) cols)
    as [sets Hsets].
  { eapply Forall_impl; [exact Hcols|]. intros node Hlen. simpl.
    destruct (bind_column self names (as_sequence node) Hlen) as (ps & Hps & _).
    exists ps. exact Hps. }
  exists sets. split; [exact Hsets|]. split; [eapply map_res_length, Hsets|].
  intros i node Hnode.
  destruct (map_res_lookup _ _ _ Hsets i node Hnode) as (ps & Hi & Hps).
  exists ps. split; [exact Hi|].
  assert (length names ≤ length (as_sequence node)) as Hlen.
  { rewrite Forall_forall in Hcols. apply Hcols.
    apply list_elem_of_lookup. exists i. exact Hnode. }
  destruct (bind_column self names (as_sequence node) Hlen) as (ps' & Hps' & Hspec).
  simpl in Hps. rewrite Hps' in Hps. injection Hps as <-. exact Hspec.
Qed.

(** The columns of a node matrix, as [create_model_parameters] walks them. *)
Lemma iter_T_columns (nodes : ndarray) (names : list string) :
  is_node_matrix nodes → length names = nrows nodes →
  ∃ cols, iter_T nodes = Ok cols
    ∧ length cols = ncols nodes
    ∧ Forall (λ node, length names ≤ length (as_sequence node)) cols
    ∧ ∀ i, i < ncols nodes →
        ∃ node, cols !! i = Some node
          ∧ ∀ j, j < length names → as_sequence node !! j = entry nodes j i.
Proof.
  intros Hwf Hnames. destruct nodes as [x|xs|n rows]; simpl in *; [contradiction| |].
  - exists (Entry <$> xs). split; [reflexivity|].
    split; [apply length_fmap|]. split.
    { apply Forall_fmap, Forall_forall. intros x _. simpl. lia. }
    intros i Hi. destruct (lookup_lt_is_Some_2 xs i Hi) as [x Hx].
    exists (Entry x). split; [rewrite list_lookup_fmap, Hx; reflexivity|].
    intros j Hj. assert (j = 0) as -> by lia. simpl. symmetry. exact Hx.
  - exists ((λ i, Column (column i rows)) <$> seq 0 n). split; [reflexivity|].
    split; [rewrite length_fmap; apply length_seq|]. split.
    { apply Forall_fmap, Forall_forall. intros i Hi%elem_of_seq. simpl.
      rewrite (column_length n) by (assumption || lia). lia. }
    intros i Hi. exists (Column (column i rows)).
    split; [rewrite list_lookup_fmap, lookup_seq_lt by exact Hi; reflexivity|].
    intros j _. simpl. apply (column_lookup n i rows Hwf Hi).
Qed.

(** C8: one parameter set per column of the node matrix, in column order;
    in the set of column [i] every uncertain name maps to the value sampled
    for it in that column (the last position of a name decides), and every
    other name maps to its declared nominal value, and to nothing when it is
    not declared.  The entries of a 1-D node array are bound as one-element
    sequences. *)
Theorem create_model_parameters_binds (self : RunModel) (nodes : ndarray)
    (names : list string) :
  is_node_matrix nodes →
  length names = nrows nodes →
  ∃ sets, create_model_parameters self nodes names = Ok sets
    ∧ length sets = ncols nodes
    ∧ ∀ i, i < ncols nodes →
        ∃ ps, sets !! i = Some ps
          ∧ (∀ j x, names !! j = Some x →
               (∀ j', j < j' → names !! j' ≠ Some x) →
               is_Some (ps !! x) ∧ ps !! x = entry nodes j i)
          ∧ (∀ x, x ∉ names → ps !! x = nominal (parameters self) x).
Proof.
  intros Hwf Hnames. unfold create_model_parameters.
  destruct (iter_T_columns nodes names Hwf Hnames)
    as (cols & -> & Hcols & Hfit & Hentries).
  destruct (bind_columns self names cols Hfit) as (sets & Hsets & Hlen & Hspec).
  exists sets. split; [exact Hsets|]. split; [congruence|].
  intros i Hi. destruct (Hentries i Hi) as (node & Hnode & Hentry).
  destruct (Hspec i node Hnode) as (ps & Hps & Hin & Hout).
  exists ps. split; [exact Hps|]. split; [|exact Hout].
  intros j x Hj Hlast. destruct (Hin j x Hj Hlast) as [Hsome Heq].
  rewrite Heq, <- (Hentry j) by (eapply lookup_lt_Some; exact Hj).
  split; [exact Hsome|reflexivity].
Qed.

(** The spec's example: a node matrix of ones bound to [a] and [b], with
    nominal values [a = 0], [b = 0], [c = 5]. *)
Lemma create_model_parameters_binds_witness :
  ∃ sets,
    create_model_parameters spec_example (Array2 3 [[1; 1; 1]; [1; 1; 1]]%Z) ["a"; "b"]
    = Ok sets
    ∧ length sets = 3
    ∧ ∀ i, i < 3 →
        ∃ ps, sets !! i = Some ps
          ∧ (∀ j x, ["a"; "b"] !! j = Some x →
               (∀ j', j < j' → ["a"; "b"] !! j' ≠ Some x) →
               is_Some (ps !! x)
               ∧ ps !! x = entry (Array2 3 [[1; 1; 1]; [1; 1; 1]]%Z) j i)
          ∧ (∀ x, x ∉ ["a"; "b"] → ps !! x = nominal (parameters spec_example) x).
Proof.
  apply (create_model_parameters_binds spec_example
           (Array2 3 [[1; 1; 1]; [1; 1; 1]]%Z) ["a"; "b"]).
  - simpl. repeat constructor.
  - reflexivity.
Defined.

(** ** apply_interpolation *)

(** The scan keeps the first greatest element of what it has seen. *)
Lemma argmax_from_spec (rest : list nat) :
  ∀ (pre : list nat) (best_i best : nat),
    pre !! best_i = Some best →
    (∀ j x, pre !! j = Some x → x ≤ best) →
    (∀ j x, j < best_i → pre !! j = Some x → x < best) →
    ∃ m, (pre ++ rest) !! argmax_from best_i best (length pre) rest = Some m
      ∧ (∀ j x, (pre ++ rest) !! j = Some x → x ≤ m)
      ∧ (∀ j x, j < argmax_from best_i best (length pre) rest →
           (pre ++ rest) !! j = Some x → x < m).
Proof.
  induction rest as [|y rest IH]; intros pre best_i best Hbest Hmax Hfirst; simpl.
  - rewrite app_nil_r. exists best. auto.
  - replace (pre ++ y :: rest) with ((pre ++ [y]) ++ rest)
      by (rewrite <- app_assoc; reflexivity).
    replace (S (length pre)) with (length (pre ++ [y]))
      by (rewrite length_app; simpl; lia).
    case_bool_decide as Hlt.
    + apply IH.
      * rewrite lookup_app_r by lia. rewrite Nat.sub_diag. reflexivity.
      * intros j x Hj. apply lookup_app_Some in Hj as [Hj|[_ Hj]].
        -- apply Hmax in Hj. lia.
        -- apply list_lookup_singleton_Some in Hj as [_ <-]. lia.
      * intros j x Hlen Hj. rewrite lookup_app_l in Hj by exact Hlen.
        apply Hmax in Hj. lia.
    + apply IH.
      * rewrite lookup_app_l by (eapply lookup_lt_Some; eassumption). exact Hbest.
      * intros j x Hj. apply lookup_app_Some in Hj as [Hj|[_ Hj]].
        -- eapply Hmax. eassumption.
        -- apply list_lookup_singleton_Some in Hj as [_ <-]. lia.
      * intros j x Hlen Hj.
        rewrite lookup_app_l in Hj
          by (apply lookup_lt_Some in Hbest; lia).
        eapply Hfirst; eassumption.
Qed.

Lemma argmax_spec (xs : list nat) (i : nat) :
  argmax xs = Ok i →
  ∃ m, xs !! i = Some m
    ∧ (∀ j x, xs !! j = Some x → x ≤ m)
    ∧ (∀ j x, j < i → xs !! j = Some x → x < m).
Proof.
  destruct xs as [|x rest]; simpl; [discriminate|]. intros [= <-].
  apply (argmax_from_spec rest [x] 0 x).
  - reflexivity.
  - intros [|j] y Hj; simpl in Hj; [injection Hj as <-; lia|].
    rewrite lookup_nil in Hj. discriminate.
  - intros j y Hj. lia.
Qed.

Lemma call_length (inter : Interpolation) (t row : pyval) (n : nat) :
  py_len t = Ok n → call inter t = Ok row → py_len row = Ok n.
Proof.
  destruct t as [| | |items]; simpl; try discriminate.
  intros [= <-] (ys & Hys & [= <-])%bind_Ok. simpl.
  apply map_res_length in Hys. rewrite Hys. reflexivity.
Qed.

Lemma call_time_array (inter : Interpolation) (t : pyval) :
  is_time_array t = true → ∃ row, call inter t = Ok row.
Proof.
  destruct t as [| | |items]; simpl; try discriminate. intros Hitems.
  destruct (map_res_total (spline_at inter) items) as [ys Hys].
  { apply Forall_forall. intros x Hx.
    rewrite forallb_forall in Hitems. apply list_elem_of_In, Hitems in Hx.
    destruct x; try discriminate; simpl; eexists; reflexivity. }
  rewrite Hys. simpl. eexists. reflexivity.
Qed.

(** Whenever [apply_interpolation] returns: the time it returns is the first
    of the longest collected time arrays, and the evaluations are the
    interpolation objects called on it, one row each. *)
Lemma apply_interpolation_spec (times : list pyval)
    (interps : list Interpolation) (t evals : pyval) :
  apply_interpolation times interps = Ok (t, evals) →
  ∃ i n rows,
    times !! i = Some t ∧ py_len t = Ok n
    ∧ (∀ j t', times !! j = Some t' → ∃ n', py_len t' = Ok n' ∧ n' ≤ n)
    ∧ (∀ j t', j < i → times !! j = Some t' → ∃ n', py_len t' = Ok n' ∧ n' < n)
    ∧ evals = PyArr rows
    ∧ Forall2 (λ inter row, call inter t = Ok row) interps rows
    ∧ Forall (λ row, py_len row = Ok n) rows.
Proof.
  unfold apply_interpolation.
  intros (lens & Hlens & (i & Hi & Hrest)%bind_Ok)%bind_Ok.
  destruct (times !! i) as [t0|] eqn:Ht0; [|discriminate].
  apply bind_Ok in Hrest as (rows & Hrows & [= <- <-]).
  apply map_res_Ok in Hlens, Hrows.
  destruct (argmax_spec lens i Hi) as (m & Hm & Hmax & Hfirst).
  destruct (Forall2_lookup_l _ _ _ _ _ Hlens Ht0) as (m' & Hm' & Hlen0).
  rewrite Hm in Hm'. injection Hm' as <-.
  exists i, m, rows. repeat split; try assumption.
  - intros j t' Ht'.
    destruct (Forall2_lookup_l _ _ _ _ _ Hlens Ht') as (n' & Hn' & Hlen').
    exists n'. split; [exact Hlen'|]. eapply Hmax. exact Hn'.
  - intros j t' Hj Ht'.
    destruct (Forall2_lookup_l _ _ _ _ _ Hlens Ht') as (n' & Hn' & Hlen').
    exists n'. split; [exact Hlen'|]. eapply Hfirst; eassumption.
  - apply Forall_forall. intros row (k & Hk)%list_elem_of_lookup.
    destruct (Forall2_lookup_r _ _ _ _ _ Hrows Hk) as (inter & _ & Hcall).
    eapply call_length; eassumption.
Qed.

(** [apply_interpolation] returns on a non-empty list of 1-D time arrays. *)
Lemma apply_interpolation_total (times : list pyval)
    (interps : list Interpolation) :
  times ≠ [] → Forall (λ t, is_time_array t = true) times →
  ∃ t evals, apply_interpolation times interps = Ok (t, evals).
Proof.
  intros Hne Htimes. unfold apply_interpolation.
  destruct (map_res_total py_len times) as [lens Hlens].
  { eapply Forall_impl; [exact Htimes|]. intros [| | |items]; simpl; try discriminate.
    intros _. eexists. reflexivity. }
  rewrite Hlens. simpl.
  assert (length lens = length times) as Hlen by (eapply map_res_length, Hlens).
  destruct lens as [|x lens]; [destruct times; [congruence|discriminate]|].
  simpl.
  destruct (argmax_spec (x :: lens) _ eq_refl) as (m & Hm & _).
  apply lookup_lt_Some in Hm. rewrite Hlen in Hm.
  destruct (lookup_lt_is_Some_2 _ _ Hm) as [t Ht]. rewrite Ht.
  destruct (map_res_total (λ inter, call inter t) interps) as [rows Hrows].
  { apply Forall_forall. intros inter _. apply call_time_array.
    rewrite Forall_forall in Htimes. apply Htimes.
    apply list_elem_of_lookup. eexists. exact Ht. }
  rewrite Hrows. simpl. eexists _, _. reflexivity.
Qed.

Lemma store_feature_interpolates (self : RunModel) (results : list Evaluation)
    (data : Data) (feature : string) (r0 : Evaluation) (v0 t evals : pyval)
    (times : list pyval) (interps : list Interpolation) :
  is_adaptive self feature = true →
  first_result results = Ok r0 → get_values r0 feature = Ok v0 → ndim v0 = 1 →
  for_res (gather self feature) results ([], []) = Ok (times, interps) →
  apply_interpolation times interps = Ok (t, evals) →
  store_feature self results data feature
  = Run [] (Ok (update_feature feature (set_time_evaluations t evals) data)).
Proof.
  intros Hadaptive Hr0 Hv0 Hndim Hgather Happly. unfold store_feature.
  rewrite Hadaptive, Hr0. simpl. rewrite Hv0. simpl. rewrite Hndim. simpl.
  rewrite Hgather. simpl. rewrite Happly. reflexivity.
Qed.

(** C3: on a non-empty list of collected 1-D time arrays,
    [apply_interpolation] returns; the time it returns is one of the
    collected arrays and none is longer; the evaluations it returns are the
    interpolation objects called on that time, in order, and every row has
    that time's length; and [results_to_data] stores exactly this time and
    these evaluations for an adaptive 1-D feature. *)
Theorem apply_interpolation_canonical (times : list pyval)
    (interps : list Interpolation) :
  times ≠ [] → Forall (λ t, is_time_array t = true) times →
  ∃ t n rows,
    apply_interpolation times interps = Ok (t, PyArr rows)
    ∧ t ∈ times ∧ py_len t = Ok n
    ∧ (∀ t', t' ∈ times → ∃ n', py_len t' = Ok n' ∧ n' ≤ n)
    ∧ Forall2 (λ inter row, call inter t = Ok row) interps rows
    ∧ Forall (λ row, py_len row = Ok n) rows
    ∧ ∀ self results data feature r0 v0,
        is_adaptive self feature = true →
        first_result results = Ok r0 → get_values r0 feature = Ok v0 →
        ndim v0 = 1 →
        for_res (gather self feature) results ([], []) = Ok (times, interps) →
        store_feature self results data feature
        = Run [] (Ok (update_feature feature
                        (set_time_evaluations t (PyArr rows)) data)).
Proof.
  intros Hne Htimes.
  destruct (apply_interpolation_total times interps Hne Htimes) as (t & evals & Happly).
  destruct (apply_interpolation_spec _ _ _ _ Happly)
    as (i & n & rows & Hi & Hn & Hmax & _ & -> & Hcalls & Hrows).
  exists t, n, rows. split; [exact Happly|].
  split; [apply list_elem_of_lookup; eexists; exact Hi|].
  split; [exact Hn|]. split.
  { intros t' (j & Hj)%list_elem_of_lookup. eapply Hmax. exact Hj. }
  split; [exact Hcalls|]. split; [exact Hrows|].
  intros self results data feature r0 v0 Hadaptive Hr0 Hv0 Hndim Hgather.
  eapply store_feature_interpolates; eassumption.
Qed.

(** The spec's example: time arrays of 5, 8 and 3 points. *)
Lemma apply_interpolation_canonical_witness :
  ∃ t n rows,
    apply_interpolation times_5_8_3 three_splines = Ok (t, PyArr rows)
    ∧ t ∈ times_5_8_3 ∧ py_len t = Ok n
    ∧ (∀ t', t' ∈ times_5_8_3 → ∃ n', py_len t' = Ok n' ∧ n' ≤ n)
    ∧ Forall2 (λ inter row, call inter t = Ok row) three_splines rows
    ∧ Forall (λ row, py_len row = Ok n) rows
    ∧ ∀ self results data feature r0 v0,
        is_adaptive self feature = true →
        first_result results = Ok r0 → get_values r0 feature = Ok v0 →
        ndim v0 = 1 →
        for_res (gather self feature) results ([], [])
        = Ok (times_5_8_3, three_splines) →
        store_feature self results data feature
        = Run [] (Ok (update_feature feature
                        (set_time_evaluations t (PyArr rows)) data)).
Proof.
  apply (apply_interpolation_canonical times_5_8_3 three_splines).
  - discriminate.
  - repeat constructor.
Defined.

Example apply_interpolation_5_8_3 :
  ∃ rows,
    apply_interpolation times_5_8_3 three_splines = Ok (time_points 0 8, PyArr rows)
    ∧ py_len <$> rows = [Ok 8; Ok 8; Ok 8].
Proof. eexists. split; vm_compute; reflexivity. Qed.

(** C10: among the collected time arrays, [apply_interpolation] returns the
    one at the lowest index that has the greatest number of points: none is
    longer, and every array before it is strictly shorter. *)
Theorem apply_interpolation_first_longest (times : list pyval)
    (interps : list Interpolation) :
  times ≠ [] → Forall (λ t, is_time_array t = true) times →
  ∃ i t evals n,
    apply_interpolation times interps = Ok (t, evals)
    ∧ times !! i = Some t ∧ py_len t = Ok n
    ∧ (∀ j t', times !! j = Some t' → ∃ n', py_len t' = Ok n' ∧ n' ≤ n)
    ∧ (∀ j t', j < i → times !! j = Some t' → ∃ n', py_len t' = Ok n' ∧ n' < n).
Proof.
  intros Hne Htimes.
  destruct (apply_interpolation_total times interps Hne Htimes) as (t & evals & Happly).
  destruct (apply_interpolation_spec _ _ _ _ Happly)
    as (i & n & rows & Hi & Hn & Hmax & Hfirst & _).
  exists i, t, evals, n. repeat split; assumption.
Qed.

(** Two arrays of 5 points after one of 3: the first of the two is returned. *)
Lemma apply_interpolation_first_longest_witness :
  ∃ i t evals n,
    apply_interpolation times_tie three_splines = Ok (t, evals)
    ∧ times_tie !! i = Some t ∧ py_len t = Ok n
    ∧ (∀ j t', times_tie !! j = Some t' → ∃ n', py_len t' = Ok n' ∧ n' ≤ n)
    ∧ (∀ j t', j < i → times_tie !! j = Some t' → ∃ n', py_len t' = Ok n' ∧ n' < n).
Proof.
  apply (apply_interpolation_first_longest times_tie three_splines).
  - discriminate.
  - repeat constructor.
Defined.

Example apply_interpolation_tie :
  ∃ evals, apply_interpolation times_tie three_splines = Ok (time_points 0 5, evals).
Proof. eexists. vm_compute. reflexivity. Qed.

(** ** is_regular *)

(** An invalid marker after a valid evaluation is compared like any other
    value: the second loop tests [is not np.nan or is not None]. *)
Lemma is_regular_marker_after_valid {L : Type} `{EqDecision L}
    (lengths : pyval → L) (feature : string) (r1 r2 : Evaluation)
    (rest : list Evaluation) (v : pyval) :
  get_values r1 feature = Ok v → is_valid v = true →
  get_values r2 feature = Ok PyNan →
  lengths v ≠ lengths PyNan →
  is_regular lengths (r1 :: r2 :: rest) feature = Ok false.
Proof.
  intros Hv Hvalid Hnan Hlen. unfold is_regular, is_valid in *. simpl.
  rewrite Hv. simpl. rewrite Hvalid. simpl. rewrite Hnan. simpl.
  rewrite bool_decide_eq_true_2 by exact Hlen. reflexivity.
Qed.

Section is_regular_facts.
Context {L : Type} `{EqDecision L} (lengths : pyval → L) (feature : string).

Lemma first_valid_spec (results : list Evaluation) :
  ∀ (i : nat) (vs : list pyval),
    raw_values results feature = Ok vs →
    ∃ k vp, first_valid feature results i = Ok (i + k, vp)
      ∧ match vp with
        | None => skip_invalid vs = [] ∧ k = length results
        | Some v => ∃ ws, raw_values (drop k results) feature = Ok ws
                      ∧ skip_invalid vs = v :: ws
        end.
Proof.
  induction results as [|r results IH]; intros i vs Hvs; simpl in *.
  - injection Hvs as <-. exists 0, None. rewrite Nat.add_0_r. auto.
  - apply bind_Ok in Hvs as (v & Hv & (vs' & Hvs' & [= <-])%bind_Ok).
    rewrite Hv. simpl. fold (is_valid v). destruct (is_valid v) eqn:Hvalid.
    + exists 1, (Some v). rewrite Nat.add_1_r. split; [reflexivity|].
      exists vs'. split; [exact Hvs'|reflexivity].
    + destruct (IH (S i) vs' Hvs') as (k & vp & Hfirst & Hvp).
      exists (S k), vp. rewrite Nat.add_succ_r. split; [exact Hfirst|].
      destruct vp; [exact Hvp|]. destruct Hvp as [? ->]. auto.
Qed.

(** The second loop compares every value that is left, valid or not. *)
Lemma compare_lengths_spec (results : list Evaluation) :
  ∀ (prev : pyval) (ws : list pyval),
    raw_values results feature = Ok ws →
    compare_lengths lengths feature results (Some prev)
    = Ok (forallb (λ w, bool_decide (lengths w = lengths prev)) ws).
Proof.
  induction results as [|r results IH]; intros prev ws Hws; simpl in *.
  - injection Hws as <-. reflexivity.
  - apply bind_Ok in Hws as (w & Hw & (ws' & Hws' & [= <-])%bind_Ok).
    rewrite Hw. simpl.
    assert (negb (is_np_nan w) || negb (is_None w) = true) as ->
      by (destruct w; reflexivity).
    case_bool_decide as Hne.
    + rewrite bool_decide_eq_false_2 by congruence. reflexivity.
    + rewrite bool_decide_eq_true_2 by congruence. simpl.
      rewrite (IH w ws' Hws'), Hne. reflexivity.
Qed.

(** What [is_regular] computes when every evaluation has values for the
    feature: it skips the invalid evaluations before the first valid one,
    and asks every later evaluation, valid or not, for the same length. *)
Lemma is_regular_characterised (results : list Evaluation) (vs : list pyval) :
  raw_values results feature = Ok vs →
  is_regular lengths results feature
  = Ok (match skip_invalid vs with
        | [] => true
        | v :: rest => forallb (λ w, bool_decide (lengths w = lengths v)) rest
        end).
Proof.
  intros Hvs. unfold is_regular.
  destruct (first_valid_spec results 0 vs Hvs) as (k & [v|] & -> & Hvp); simpl.
  - destruct Hvp as (ws & Hws & ->). apply compare_lengths_spec. exact Hws.
  - destruct Hvp as [-> ->]. rewrite drop_all. reflexivity.
Qed.

(** [is_regular] returns when every evaluation has values for the feature. *)
Lemma is_regular_total (results : list Evaluation) :
  Forall (λ r, ∃ v, get_values r feature = Ok v) results →
  ∃ b, is_regular lengths results feature = Ok b.
Proof.
  intros [vs Hvs]%map_res_total. eexists.
  apply is_regular_characterised. exact Hvs.
Qed.

(** X5: when every evaluation has values for the feature and no invalid
    evaluation follows a valid one, [is_regular] is the check in the spec's
    words. *)
Lemma is_regular_without_late_markers (results : list Evaluation)
    (vs : list pyval) :
  raw_values results feature = Ok vs →
  Forall (λ v, is_valid v = true) (skip_invalid vs) →
  is_regular lengths results feature = is_regular_spec lengths results feature.
Proof.
  intros Hvs Hlate. rewrite (is_regular_characterised results vs Hvs).
  unfold is_regular_spec. rewrite Hvs. simpl.
  assert (filter (λ v, is_valid v = true) vs = skip_invalid vs) as ->;
    [|reflexivity].
  clear Hvs. induction vs as [|v vs IH]; simpl in *; [reflexivity|].
  destruct (is_valid v) eqn:Hvalid.
  - apply filter_all. exact Hlate.
  - rewrite filter_cons_False by congruence. apply IH. exact Hlate.
Qed.

End is_regular_facts.

(** C2: on two evaluations of three points with an invalid evaluation in
    between, [is_regular] answers false, where the check in the spec's words
    answers true. *)
Theorem is_regular_counts_invalid_marker :
  is_regular lengths results_valid_invalid_valid "feature1d" = Ok false
  ∧ is_regular_spec lengths results_valid_invalid_valid "feature1d" = Ok true.
Proof. split; vm_compute; reflexivity. Qed.

(** ** The time base of an adaptive 1-D feature *)

Lemma gather_model_without_time (self : RunModel) (result : Evaluation)
    (acc : list pyval * list Interpolation) (tf : pyval) :
  get_time result (model_name (model self)) = Ok tf →
  np_all_isnan tf = Ok true →
  gather self (model_name (model self)) acc result
  = Err (Raise ValueError
           [model_name (model self)
            +:+ " has no valid time values to use in the interpolation"]).
Proof.
  intros Htf Hnan. destruct acc as [times interps]. unfold gather.
  rewrite Htf. simpl. rewrite Hnan. simpl.
  unfold no_time_msg. rewrite !bool_decide_eq_true_2 by reflexivity. reflexivity.
Qed.

(** C4: an evaluation whose own time is entirely invalid.  For a feature
    other than the model, the model's time is gathered in its place when it
    is valid, and the error names feature and model when it is not.  For the
    model's own output there is nothing to fall back to: the turn raises the
    error that names the model, and with it the storing of the feature. *)
Theorem gather_time_fallback (self : RunModel) (feature : string)
    (result : Evaluation) (times : list pyval) (interps : list Interpolation)
    (tf : pyval) :
  get_time result feature = Ok tf → np_all_isnan tf = Ok true →
  (feature ≠ model_name (model self) →
     ∀ tm, get_time result (model_name (model self)) = Ok tm →
       (np_all_isnan tm = Ok false →
          ∀ inter, get_interpolation result feature = Ok inter →
            gather self feature (times, interps) result
            = Ok (times ++ [tm], interps ++ [inter]))
       ∧ (np_all_isnan tm = Ok true →
            gather self feature (times, interps) result
            = Err (Raise ValueError
                     ["Neither " +:+ feature +:+ " or " +:+ model_name (model self)
                      +:+ " has valid time values to use in the interpolation"])))
  ∧ (feature = model_name (model self) →
       gather self feature (times, interps) result
       = Err (Raise ValueError
                [model_name (model self)
                 +:+ " has no valid time values to use in the interpolation"])
       ∧ ∀ results data r0 v0 pre post acc,
           is_adaptive self feature = true →
           first_result results = Ok r0 → get_values r0 feature = Ok v0 →
           ndim v0 = 1 →
           results = pre ++ result :: post →
           for_res (gather self feature) pre ([], []) = Ok acc →
           store_feature self results data feature
           = Run [] (Err (Raise ValueError
                            [model_name (model self)
                             +:+ " has no valid time values to use in the interpolation"]))).
Proof.
  intros Htf Hnan. split.
  - intros Hne tm Htm. unfold gather. rewrite Htf. simpl. rewrite Hnan. simpl.
    rewrite bool_decide_eq_false_2 by exact Hne. simpl. rewrite Htm. simpl.
    split.
    + intros Hvalid inter Hinter. rewrite Hvalid. simpl. rewrite Hinter. reflexivity.
    + intros Hinvalid. rewrite Hinvalid. simpl. unfold no_time_msg.
      rewrite bool_decide_eq_false_2 by exact Hne. reflexivity.
  - intros ->. split; [eapply gather_model_without_time; eassumption|].
    intros results data r0 v0 pre post acc Hadaptive Hr0 Hv0 Hndim -> Hpre.
    unfold store_feature. rewrite Hadaptive, Hr0. simpl. rewrite Hv0. simpl.
    rewrite Hndim. simpl. rewrite for_res_app, Hpre. simpl.
    rewrite (gather_model_without_time self result acc tf Htf Hnan). reflexivity.
Qed.

(** The feature [f] has no valid time of its own; the model [m] has. *)
Lemma gather_time_fallback_witness :
  gather spec_example "f" ([], []) result_feature_without_time
  = Ok ([nums [0; 1; 2]%Z], [ {| spline := Z.double |} ]).
Proof.
  refine (proj1 (proj1 (gather_time_fallback spec_example "f"
            result_feature_without_time [] [] (PyArr [PyNan; PyNan])
            eq_refl eq_refl) _ (nums [0; 1; 2]%Z) eq_refl) eq_refl _ eq_refl).
  discriminate.
Defined.

(** ** results_to_data: the three phases *)

Lemma data_features_update (feature : string) (f : DataFeature → DataFeature)
    (data : Data) :
  data_features (update_feature feature f data) = data_features data.
Proof. reflexivity. Qed.

Lemma data_features_add_feature_labels (self : RunModel) (data : Data)
    (feature : string) :
  data_features (add_feature_labels self data feature)
  = if bool_decide (feature ∈ data_features data) then data_features data
    else data_features data ++ [feature].
Proof.
  unfold add_feature_labels. case_bool_decide; [reflexivity|].
  destruct (features_labels (features self) !! feature); reflexivity.
Qed.

Lemma registered_features (self : RunModel) (keys : list string) :
  ∀ (data : Data) (x : string),
    x ∈ data_features (foldl (add_feature_labels self) data keys)
    ↔ x ∈ data_features data ∨ x ∈ keys.
Proof.
  induction keys as [|k keys IH]; intros data x; simpl.
  - rewrite elem_of_nil. tauto.
  - rewrite IH, data_features_add_feature_labels, elem_of_cons.
    case_bool_decide as Hk.
    + split; [tauto|]. intros [?|[->|?]]; tauto.
    + rewrite elem_of_app, list_elem_of_singleton. tauto.
Qed.

(** The features the loops of [results_to_data] run over are the keys of the
    first result. *)
Lemma register_features_keys (self : RunModel) (r0 : Evaluation) (x : string) :
  x ∈ data_features (register_features self r0) ↔ x ∈ r0.*1.
Proof.
  unfold register_features. simpl. rewrite registered_features. simpl.
  rewrite elem_of_nil. tauto.
Qed.

Section regularity_phase.
Context {L : Type} `{EqDecision L} (lengths : pyval → L).
Context (self : RunModel) (results : list Evaluation).

Lemma check_feature_regular (f : string) :
  (must_be_regular self f = true → is_regular lengths results f = Ok true) →
  check_feature lengths self results tt f = Ok tt.
Proof.
  intros Hf. unfold check_feature.
  destruct (must_be_regular self f); [|reflexivity].
  rewrite Hf by reflexivity. reflexivity.
Qed.

Lemma check_feature_irregular (f : string) :
  must_be_regular self f = true → is_regular lengths results f = Ok false →
  check_feature lengths self results tt f
  = Err (Raise ValueError [irregular_msg f]).
Proof. intros Hmust Hf. unfold check_feature. rewrite Hmust, Hf. reflexivity. Qed.

Lemma check_loop_pass (fs : list string) :
  (∀ g, g ∈ fs → must_be_regular self g = true →
        is_regular lengths results g = Ok true) →
  for_res (check_feature lengths self results) fs tt = Ok tt.
Proof.
  induction fs as [|f fs IH]; intros Hall; simpl; [reflexivity|].
  rewrite check_feature_regular by (apply Hall; left).
  simpl. apply IH. intros g Hg. apply Hall. right. exact Hg.
Qed.

Lemma check_loop_first (pre post : list string) (f : string) :
  (∀ g, g ∈ pre → must_be_regular self g = true →
        is_regular lengths results g = Ok true) →
  must_be_regular self f = true → is_regular lengths results f = Ok false →
  for_res (check_feature lengths self results) (pre ++ f :: post) tt
  = Err (Raise ValueError [irregular_msg f]).
Proof.
  intros Hpre Hmust Hf. rewrite for_res_app, (check_loop_pass pre Hpre). simpl.
  rewrite (check_feature_irregular f Hmust Hf). reflexivity.
Qed.

(** When no check raises, the loop passes or stops at the first irregular
    feature. *)
Lemma check_loop_cases (fs : list string) :
  (∀ g, g ∈ fs → must_be_regular self g = true →
        ∃ b, is_regular lengths results g = Ok b) →
  (∀ g, g ∈ fs → must_be_regular self g = true →
        is_regular lengths results g = Ok true)
  ∨ ∃ pre f post, fs = pre ++ f :: post
      ∧ (∀ g, g ∈ pre → must_be_regular self g = true →
              is_regular lengths results g = Ok true)
      ∧ must_be_regular self f = true
      ∧ is_regular lengths results f = Ok false.
Proof.
  induction fs as [|f fs IH]; intros Hall.
  - left. intros g Hg. apply elem_of_nil in Hg. contradiction.
  - destruct (must_be_regular self f) eqn:Hmust.
    + destruct (Hall f) as [[|] Hb]; [left|exact Hmust| |].
      * destruct IH as [Hok|(pre & g & post & -> & Hpre & Hg & Hirr)].
        { intros g Hg. apply Hall. right. exact Hg. }
        -- left. intros g [->|Hg]%elem_of_cons; [intros _; exact Hb|apply Hok, Hg].
        -- right. exists (f :: pre), g, post. repeat split; try assumption.
           intros h [->|Hh]%elem_of_cons; [intros _; exact Hb|apply Hpre, Hh].
      * right. exists [], f, fs. repeat split; try assumption.
        intros g Hg. apply elem_of_nil in Hg. contradiction.
    + destruct IH as [Hok|(pre & g & post & -> & Hpre & Hg & Hirr)].
      { intros g Hg. apply Hall. right. exact Hg. }
      * left. intros g [->|Hg]%elem_of_cons; [congruence|apply Hok, Hg].
      * right. exists (f :: pre), g, post. repeat split; try assumption.
        intros h [->|Hh]%elem_of_cons; [congruence|apply Hpre, Hh].
Qed.

End regularity_phase.

Lemma results_to_data_checked {L : Type} `{EqDecision L} (lengths : pyval → L)
    (self : RunModel) (results : list Evaluation) (r0 : Evaluation) :
  first_result results = Ok r0 →
  results_to_data lengths self results
  = match check_regularity lengths self results (register_features self r0) with
    | Ok _ => store_results self results (register_features self r0)
    | Err e => Run [] (Err e)
    end.
Proof.
  intros Hr0. unfold results_to_data. rewrite Hr0, lift_Ok_bind.
  destruct (check_regularity lengths self results (register_features self r0)).
  - rewrite lift_Ok_bind. reflexivity.
  - rewrite lift_Err_bind. reflexivity.
Qed.

(** C5: the features that must be regular are the model's own output when
    the model is neither adaptive nor ignored, and every other feature that
    is not declared adaptive.  Let every evaluation have values for each of
    them.  When one of them is irregular,
    [results_to_data] raises the [ValueError] whose message names an
    irregular feature, the first in order, and suggests setting adaptive to
    True; nothing is stored.  When all of them are regular, the regularity
    loop raises nothing and [results_to_data] is the storing loop. *)
Theorem results_to_data_irregular {L : Type} `{EqDecision L}
    (lengths : pyval → L) (self : RunModel) (results : list Evaluation)
    (r0 : Evaluation) :
  first_result results = Ok r0 →
  (∀ g, g ∈ r0.*1 → must_be_regular self g = true →
        Forall (λ r, ∃ v, get_values r g = Ok v) results) →
  (∀ g, must_be_regular self g = true ↔
        (g = model_name (model self) ∧ model_ignore (model self) = false
         ∧ model_adaptive (model self) = false)
        ∨ (g ≠ model_name (model self) ∧ g ∉ features_adaptive (features self)))
  ∧ ((∃ g, g ∈ r0.*1 ∧ must_be_regular self g = true
           ∧ is_regular lengths results g = Ok false) →
     ∃ pre f post,
       data_features (register_features self r0) = pre ++ f :: post
       ∧ f ∈ r0.*1 ∧ must_be_regular self f = true
       ∧ is_regular lengths results f = Ok false
       ∧ (∀ g, g ∈ pre → must_be_regular self g = true →
               is_regular lengths results g = Ok true)
       ∧ results_to_data lengths self results
         = Run [] (Err (Raise ValueError
                          [f +:+ ": The number of points varies between evaluations."
                           +:+ " Try setting adaptive to True in " +:+ f])))
  ∧ ((∀ g, g ∈ r0.*1 → must_be_regular self g = true →
           is_regular lengths results g = Ok true) →
     check_regularity lengths self results (register_features self r0) = Ok tt
     ∧ results_to_data lengths self results
       = store_results self results (register_features self r0)).
Proof.
  intros Hr0 Hvalues.
  assert (∀ g, g ∈ r0.*1 → must_be_regular self g = true →
               ∃ b, is_regular lengths results g = Ok b) as Hall.
  { intros g Hg Hmust. apply is_regular_total, Hvalues; assumption. }
  split; [|split].
  - intros g. unfold must_be_regular.
    destruct (model_ignore (model self)), (model_adaptive (model self));
      repeat case_bool_decide; simpl; split; intros Hg;
      try discriminate; try reflexivity;
      try (right; split; assumption);
      try (left; repeat split; assumption);
      destruct Hg as [(? & ? & ?)|(? & ?)]; congruence.
  - intros (g & Hg & Hmust & Hirr).
    destruct (check_loop_cases lengths self results
                (data_features (register_features self r0)))
      as [Hok|(pre & f & post & Hfs & Hpre & Hf & Hfirr)].
    { intros h Hh. apply Hall, (proj1 (register_features_keys self r0 h)), Hh. }
    { apply (proj2 (register_features_keys self r0 g)) in Hg.
      rewrite (Hok g Hg Hmust) in Hirr.
      discriminate. }
    exists pre, f, post. split; [exact Hfs|]. split.
    { apply (proj1 (register_features_keys self r0 f)). rewrite Hfs.
      apply elem_of_app. right. left. }
    repeat split; try assumption.
    rewrite (results_to_data_checked lengths self results r0 Hr0).
    unfold check_regularity. rewrite Hfs.
    rewrite (check_loop_first lengths self results pre post f Hpre Hf Hfirr).
    reflexivity.
  - intros Hok.
    assert (check_regularity lengths self results (register_features self r0)
            = Ok tt) as Hcheck.
    { apply check_loop_pass. intros g Hg.
      apply Hok, (proj1 (register_features_keys self r0 g)), Hg. }
    split; [exact Hcheck|].
    rewrite (results_to_data_checked lengths self results r0 Hr0), Hcheck.
    reflexivity.
Qed.

Example results_to_data_irregular_model :
  results_to_data lengths spec_example results_irregular
  = Run [] (Err (Raise ValueError
      ["m: The number of points varies between evaluations. Try setting adaptive to True in m"])).
Proof. vm_compute. reflexivity. Qed.

Lemma results_to_data_irregular_witness :
  ∃ pre f post,
    data_features (register_features spec_example
                     [("m", envelope (nums [1; 2; 3]%Z) (nums [0; 1; 2]%Z))])
    = pre ++ f :: post
    ∧ f ∈ [("m", envelope (nums [1; 2; 3]%Z) (nums [0; 1; 2]%Z))].*1
    ∧ must_be_regular spec_example f = true
    ∧ is_regular lengths results_irregular f = Ok false
    ∧ (∀ g, g ∈ pre → must_be_regular spec_example g = true →
            is_regular lengths results_irregular g = Ok true)
    ∧ results_to_data lengths spec_example results_irregular
      = Run [] (Err (Raise ValueError
                       [f +:+ ": The number of points varies between evaluations."
                        +:+ " Try setting adaptive to True in " +:+ f])).
Proof.
  refine (proj1 (proj2 (results_to_data_irregular lengths spec_example
            results_irregular _ eq_refl _)) _).
  - intros g Hg _. simpl in Hg. apply list_elem_of_singleton in Hg as ->.
    repeat constructor; eexists; reflexivity.
  - exists "m". split; [simpl; apply list_elem_of_singleton; reflexivity|].
    split; vm_compute; reflexivity.
Defined.

(** ** The storing loop *)





Lemma store_feature_0d (self : RunModel) (results : list Evaluation)
    (data : Data) (feature : string) (r0 : Evaluation) (v0 t0 : pyval)
    (vs : list pyval) :
  is_adaptive self feature = true →
  first_result results = Ok r0 → get_values r0 feature = Ok v0 → ndim v0 = 0 →
  get_time r0 feature = Ok t0 → raw_values results feature = Ok vs →
  store_feature self results data feature
  = Run [LogWarning (warning_0d_msg feature)]
        (Ok (update_feature feature (set_time_evaluations t0 (PyArr vs)) data)).
Proof.
  intros Hadaptive Hr0 Hv0 Hndim Ht0 Hvs. unfold store_feature.
  rewrite Hadaptive, Hr0. simpl. rewrite Hv0, Ht0. simpl.
  rewrite Hndim. simpl. rewrite Hvs. reflexivity.
Qed.

(** A turn of the storing loop that succeeds writes the time and the
    evaluations of its own feature and nothing else. *)
Lemma store_feature_Ok_inv (self : RunModel) (results : list Evaluation)
    (data data' : Data) (feature : string) (tr : list event) :
  store_feature self results data feature = Run tr (Ok data') →
  ∃ t e, data' = update_feature feature (set_time_evaluations t e) data.
Proof.
  unfold store_feature. destruct (is_adaptive self feature).
  - destruct (r0 ← first_result results; get_values r0 feature) as [v0|e];
      [rewrite lift_Ok_bind|discriminate].
    case_bool_decide; [discriminate|]. case_bool_decide.
    + destruct (for_res (gather self feature) results ([], [])) as [[ti ins]|e];
        [rewrite lift_Ok_bind|discriminate].
      destruct (apply_interpolation ti ins) as [[t ev]|e];
        [rewrite lift_Ok_bind|discriminate].
      intros [= <- <-]. eexists _, _. reflexivity.
    + rewrite emit_bind.
      destruct (r0 ← first_result results; get_time r0 feature) as [t|e];
        [rewrite lift_Ok_bind|discriminate].
      destruct (raw_values results feature) as [vs|e];
        [rewrite lift_Ok_bind|discriminate].
      intros [= <- <-]. eexists _, _. reflexivity.
  - destruct (bool_decide (feature = model_name (model self))
              && model_ignore (model self)).
    + destruct (for_res _ results ([], [])) as [[evs ts]|e];
        [rewrite lift_Ok_bind|discriminate].
      intros [= <- <-]. eexists _, _. reflexivity.
    + destruct (r0 ← first_result results; get_time r0 feature) as [t|e];
        [rewrite lift_Ok_bind|discriminate].
      destruct (raw_values results feature) as [vs|e];
        [rewrite lift_Ok_bind|discriminate].
      intros [= <- <-]. eexists _, _. reflexivity.
Qed.

Lemma registered_items (self : RunModel) (keys : list string) :
  ∀ (data : Data) (x : string),
    is_Some (data_items data !! x) ∨ x ∈ keys →
    is_Some (data_items (foldl (add_feature_labels self) data keys) !! x).
Proof.
  induction keys as [|k keys IH]; intros data x Hx; simpl.
  - destruct Hx as [Hx|Hx]; [exact Hx|]. apply elem_of_nil in Hx. contradiction.
  - apply IH.
    assert (is_Some (data_items data !! x) ∨ x = k ∨ x ∈ keys) as Hcases.
    { destruct Hx as [?|[->|?]%elem_of_cons]; tauto. }
    destruct Hcases as [Hsome|[->|Hin]]; [left|left|right; exact Hin].
    + unfold add_feature_labels.
      assert (is_Some (data_items (add_features k data) !! x)) as Hadd.
      { simpl. rewrite lookup_insert. case_decide; [eexists; reflexivity|exact Hsome]. }
      case_bool_decide; [|destruct (features_labels (features self) !! k)];
        simpl; try exact Hadd;
        rewrite lookup_alter; case_decide; try exact Hadd;
        subst; apply fmap_is_Some; exact Hadd.
    + unfold add_feature_labels.
      assert (is_Some (data_items (add_features k data) !! k)) as Hadd.
      { simpl. rewrite lookup_insert_eq. eexists; reflexivity. }
      case_bool_decide; [|destruct (features_labels (features self) !! k)];
        simpl; try exact Hadd;
        rewrite lookup_alter_eq; apply fmap_is_Some; exact Hadd.
Qed.

Section store_0d.
Context (self : RunModel) (results : list Evaluation) (feature : string).
Context (r0 : Evaluation) (v0 t0 : pyval) (vs : list pyval).
Hypothesis Hadaptive : is_adaptive self feature = true.
Hypothesis Hr0 : first_result results = Ok r0.
Hypothesis Hv0 : get_values r0 feature = Ok v0.
Hypothesis Hndim : ndim v0 = 0.
Hypothesis Ht0 : get_time r0 feature = Ok t0.
Hypothesis Hvs : raw_values results feature = Ok vs.

Lemma store_loop_0d (fs : list string) :
  ∀ (acc out : Data) (tr : list event),
    for_M (store_feature self results) fs acc = Run tr (Ok out) →
    is_Some (data_items acc !! feature) →
    feature ∈ fs ∨ stored feature t0 (PyArr vs) acc →
    stored feature t0 (PyArr vs) out ∧ (feature ∈ fs → LogWarning (warning_0d_msg feature) ∈ tr).
Proof.
  induction fs as [|g fs IH]; intros acc out tr Hrun Hsome Hcase; simpl in Hrun.
  - injection Hrun as <- <-. destruct Hcase as [Hin|HQ].
    + apply elem_of_nil in Hin. contradiction.
    + split; [exact HQ|]. intros Hin. apply elem_of_nil in Hin. contradiction.
  - apply M_bind_Ok_inv in Hrun as (t1 & a & t2 & Hg & Hrest & ->).
    destruct (decide (g = feature)) as [->|Hne].
    + rewrite (store_feature_0d self results acc feature r0 v0 t0 vs) in Hg
        by assumption.
      injection Hg as <- <-.
      destruct Hsome as [d Hd].
      destruct (IH _ out t2 Hrest) as [HQ _].
      * simpl. rewrite lookup_alter_eq, Hd. eexists. reflexivity.
      * right. eexists. split; [simpl; rewrite lookup_alter_eq, Hd; reflexivity|].
        split; reflexivity.
      * split; [exact HQ|]. intros _. left.
    + apply store_feature_Ok_inv in Hg as (t & e & ->).
      destruct (IH _ out t2 Hrest) as [HQ Hwarn].
      * simpl. rewrite lookup_alter_ne by exact Hne. exact Hsome.
      * destruct Hcase as [[Heq|Hin]%elem_of_cons|(d & Hd & Hq)].
        -- congruence.
        -- left. exact Hin.
        -- right. exists d. split; [|exact Hq].
           simpl. rewrite lookup_alter_ne by exact Hne. exact Hd.
      * split; [exact HQ|]. intros [Heq|Hin]%elem_of_cons; [congruence|].
        apply elem_of_app. right. apply Hwarn, Hin.
Qed.

End store_0d.

(** C9: when the first evaluation's values of an adaptive feature are 0-D,
    storing the feature logs the warning and writes the first evaluation's
    time and the list of every evaluation's raw values, in order; whenever
    [results_to_data] returns a dataset, the warning was logged and the
    dataset holds that time and these values for the feature. *)
Theorem results_to_data_0d_adaptive {L : Type} `{EqDecision L}
    (lengths : pyval → L) (self : RunModel) (results : list Evaluation)
    (r0 : Evaluation) (feature : string) (v0 t0 : pyval) (vs : list pyval) :
  first_result results = Ok r0 → feature ∈ r0.*1 →
  is_adaptive self feature = true →
  get_values r0 feature = Ok v0 → ndim v0 = 0 →
  get_time r0 feature = Ok t0 →
  Forall2 (λ result v, get_values result feature = Ok v) results vs →
  (∀ data,
     store_feature self results data feature
     = Run [LogWarning (feature +:+ " "
                        +:+ "gives a 0D result. No interpolation performed")]
           (Ok (update_feature feature
                  (set_time_evaluations t0 (PyArr vs)) data)))
  ∧ (∀ tr data,
       results_to_data lengths self results = Run tr (Ok data) →
       LogWarning (feature +:+ " "
                   +:+ "gives a 0D result. No interpolation performed") ∈ tr
       ∧ stored feature t0 (PyArr vs) data).
Proof.
  intros Hr0 Hin Hadaptive Hv0 Hndim Ht0 Hvs.
  assert (raw_values results feature = Ok vs) as Hraw by (apply map_res_Ok, Hvs).
  split.
  - intros data. eapply store_feature_0d; eassumption.
  - intros tr data.
    rewrite (results_to_data_checked lengths self results r0 Hr0).
    destruct (check_regularity lengths self results (register_features self r0));
      [|discriminate].
    intros Hrun.
    destruct (store_loop_0d self results feature r0 v0 t0 vs
                Hadaptive Hr0 Hv0 Hndim Ht0 Hraw _ _ _ _ Hrun) as [Hstored Hwarn].
    + unfold register_features. simpl. apply registered_items. right. exact Hin.
    + left. apply register_features_keys. exact Hin.
    + split; [|exact Hstored]. apply Hwarn, register_features_keys, Hin.
Qed.

Lemma results_to_data_0d_adaptive_witness :
  ndim (PyNum 4) = 0
  ∧ store_feature adaptive_f results_0d Data_new "f"
    = Run [LogWarning "f gives a 0D result. No interpolation performed"]
          (Ok (update_feature "f"
                 (set_time_evaluations PyNan (PyArr [PyNum 4; PyNum 5; PyNum 6]))
                 Data_new)).
Proof.
  split; [reflexivity|].
  refine (proj1 (results_to_data_0d_adaptive lengths adaptive_f results_0d
            _ "f" (PyNum 4) PyNan [PyNum 4; PyNum 5; PyNum 6]
            eq_refl _ eq_refl eq_refl eq_refl eq_refl _) Data_new).
  - simpl. left.
  - repeat constructor.
Defined.

(** The dataset is returned, with one warning. *)
Example results_to_data_0d_returns :
  ∃ data,
    results_to_data lengths adaptive_f results_0d
    = Run [LogWarning "f gives a 0D result. No interpolation performed"] (Ok data)
    ∧ data_items data !! "f"
      = Some {| data_labels := None; data_time := Some PyNan;
                data_evaluations := Some (PyArr [PyNum 4; PyNum 5; PyNum 6]) |}.
Proof. eexists. split; vm_compute; reflexivity. Qed.

(** ** The pool and evaluate_nodes *)


(** Every task finishes. *)
Lemma completion_order_complete (n : nat) (sched : list nat) (i : nat) :
  i ∈ completion_order n sched ↔ i < n.
Proof.
  unfold completion_order.
  rewrite elem_of_app, elem_of_remove_dups, !list_elem_of_filter, elem_of_seq.
  rewrite elem_of_remove_dups, list_elem_of_filter. split.
  - intros [[Hi _]|[_ Hi]]; lia.
  - intros Hi. destruct (decide (i ∈ sched)); [left; tauto|right].
    split; [tauto|lia].
Qed.


Lemma pool_slots_lookup {A B} (f : A → res B) (tasks : list A) (order : list nat)
    (i : nat) (task : A) :
  tasks !! i = Some task → i ∈ order →
  pool_slots f tasks order !! i = Some (f task).
Proof.
  intros Htask. unfold pool_slots.
  assert (∀ init : gmap nat (res B),
            i ∈ order ∨ init !! i = Some (f task) →
            foldl (λ slots k,
                     match tasks !! k with
                     | Some task => <[k := f task]> slots
                     | None => slots
                     end) init order !! i = Some (f task)) as Hgen.
  { induction order as [|k order IH]; intros init Hcase; simpl.
    - destruct Hcase as [Hin|Hinit]; [|exact Hinit].
      apply elem_of_nil in Hin. contradiction.
    - apply IH. destruct (decide (k = i)) as [->|Hne].
      + right. rewrite Htask. apply lookup_insert_eq.
      + destruct Hcase as [[Heq|Hin]%elem_of_cons|Hinit];
          [congruence|left; exact Hin|].
        right. destruct (tasks !! k); [rewrite lookup_insert_ne by exact Hne|];
          exact Hinit. }
  intros Hin. apply Hgen. left. exact Hin.
Qed.

Lemma imap_next_slots {A B} (f : A → res B) (tasks : list A)
    (slots : gmap nat (res B)) (n : nat) :
  ∀ i, i + n = length tasks →
    (∀ k task, tasks !! k = Some task → slots !! k = Some (f task)) →
    imap_next slots i n = map_res f (drop i tasks).
Proof.
  induction n as [|n IH]; intros i Hlen Hslots; simpl.
  - rewrite drop_ge by lia. reflexivity.
  - destruct (lookup_lt_is_Some_2 tasks i) as [task Htask]; [lia|].
    rewrite (Hslots i task Htask), (drop_S _ _ _ Htask). simpl.
    rewrite (IH (S i)) by (assumption || lia). reflexivity.
Qed.

(** Whatever the order in which the workers finish, [pool.imap] hands the
    outcomes over in the order of the tasks. *)
Lemma pool_imap_ordered {A B} (f : A → res B) (tasks : list A) (sched : list nat) :
  pool_imap f tasks sched
  = Run (WorkerDone <$> completion_order (length tasks) sched) (map_res f tasks).
Proof.
  unfold pool_imap. f_equal.
  rewrite (imap_next_slots f tasks _ (length tasks) 0); [reflexivity|lia|].
  intros k task Htask. apply pool_slots_lookup; [exact Htask|].
  apply completion_order_complete. eapply lookup_lt_Some. exact Htask.
Qed.


(** [evaluate_nodes] once the display, if any, is available and the
    parameter sets are built. *)
Lemma evaluate_nodes_dispatch (prerequisites : bool) (sched : list nat)
    (self : RunModel) (nodes : ndarray) (names : list string)
    (sets : list (gmap string Z)) :
  (model_suppress_graphics (model self) = true → prerequisites = true) →
  create_model_parameters self nodes names = Ok sets →
  evaluate_nodes prerequisites sched self nodes names
  = Run ((if model_suppress_graphics (model self) then [XvfbStart] else [])
         ++ PoolOpen (CPUs self)
         :: (WorkerDone <$> completion_order (length sets) sched)
         ++ match map_res (parallel_run self) sets with
            | Ok _ =>
                PoolClose
                :: (if model_suppress_graphics (model self) then [XvfbStop] else [])
            | Err _ => []
            end)
        (map_res (parallel_run self) sets).
Proof.
  intros Hdisplay Hsets. unfold evaluate_nodes. rewrite Hsets.
  destruct (model_suppress_graphics (model self)).
  - rewrite Hdisplay by reflexivity. simpl negb. cbv iota.
    rewrite !emit_bind, lift_Ok_bind, pool_imap_ordered.
    destruct (map_res (parallel_run self) sets) as [results|e]; simpl;
      [reflexivity|rewrite app_nil_r; reflexivity].
  - rewrite mret_bind, emit_bind, lift_Ok_bind, pool_imap_ordered.
    destruct (map_res (parallel_run self) sets) as [results|e]; simpl;
      [reflexivity|rewrite app_nil_r; reflexivity].
Qed.



Example evaluate_nodes_2_0_1 :
  evaluate_nodes true [2; 0; 1] echo_headless (Array2 3 [[10; 20; 30]]%Z) ["a"]
  = Run [XvfbStart; PoolOpen 2; WorkerDone 2; WorkerDone 0; WorkerDone 1;
         PoolClose; XvfbStop]
        (Ok [ [("m", envelope (PyNum 10) PyNan)];
              [("m", envelope (PyNum 20) PyNan)];
              [("m", envelope (PyNum 30) PyNan)] ]).
Proof. vm_compute. reflexivity. Qed.

(** C6, as the code has it: when the model suppresses graphics and
    [xvfbwrapper] is missing, [evaluate_nodes] raises [ImportError] before
    anything else happens; when it is there, the display is started first,
    before the pool is opened and any worker runs, and it is stopped last,
    after the pool is closed, when [evaluate_nodes] returns; when building
    the parameter sets or an evaluation raises, the display is not stopped. *)
Theorem evaluate_nodes_display (prerequisites : bool) (sched : list nat)
    (self : RunModel) (nodes : ndarray) (names : list string) :
  model_suppress_graphics (model self) = true →
  (prerequisites = false →
     evaluate_nodes prerequisites sched self nodes names
     = Run [] (Err (Raise ImportError
                      ["Running with suppress_graphics require: xvfbwrapper"])))
  ∧ (prerequisites = true →
     ∃ tr,
       trace (evaluate_nodes prerequisites sched self nodes names)
       = XvfbStart :: PoolOpen (CPUs self) :: tr
       ∧ (XvfbStart ∉ tr)
       ∧ (∀ results,
            outcome (evaluate_nodes prerequisites sched self nodes names)
            = Ok results →
            ∃ workers, tr = (WorkerDone <$> workers) ++ [PoolClose; XvfbStop])
       ∧ (∀ e,
            outcome (evaluate_nodes prerequisites sched self nodes names)
            = Err e →
            XvfbStop ∉ tr)).
Proof.
  intros Hsuppress. split.
  - intros ->. unfold evaluate_nodes. rewrite Hsuppress. reflexivity.
  - intros ->.
    destruct (create_model_parameters self nodes names) as [sets|e] eqn:Hsets.
    + rewrite (evaluate_nodes_dispatch true sched self nodes names sets
                 (λ _, eq_refl) Hsets), Hsuppress. simpl.
      eexists. split; [reflexivity|].
      assert (∀ ev (l : list nat), ev ∈ WorkerDone <$> l → ∃ i, ev = WorkerDone i)
        as Hworkers.
      { intros ev l (i & -> & _)%list_elem_of_fmap. eexists. reflexivity. }
      destruct (map_res (parallel_run self) sets) as [results|e]; repeat split.
      * intros [Hin|Hin]%elem_of_app.
        -- apply Hworkers in Hin as [i [=]].
        -- repeat (apply elem_of_cons in Hin as [[=]|Hin]).
           apply elem_of_nil in Hin. contradiction.
      * intros _ _. eexists. reflexivity.
      * discriminate.
      * rewrite app_nil_r. intros Hin. apply Hworkers in Hin as [i [=]].
      * discriminate.
      * intros e' _. rewrite app_nil_r.
        intros Hin. apply Hworkers in Hin as [i [=]].
    + unfold evaluate_nodes. rewrite Hsuppress, Hsets. simpl.
      exists []. split; [reflexivity|]. split; [apply not_elem_of_nil|].
      split; [discriminate|]. intros _ _. apply not_elem_of_nil.
Qed.

Lemma evaluate_nodes_display_witness :
  ∃ workers,
    trace (evaluate_nodes true [2; 0; 1] echo_headless
             (Array2 3 [[10; 20; 30]]%Z) ["a"])
    = XvfbStart :: PoolOpen 2 :: (WorkerDone <$> workers) ++ [PoolClose; XvfbStop].
Proof.
  destruct (proj2 (evaluate_nodes_display true [2; 0; 1] echo_headless
              (Array2 3 [[10; 20; 30]]%Z) ["a"] eq_refl) eq_refl)
    as (tr & Htrace & _ & Hreturns & _).
  destruct (Hreturns _ eq_refl) as [workers ->].
  exists workers. exact Htrace.
Defined.

(** C6, as stated, fails: the display is started and, the one evaluation
    raising, never stopped. *)
Lemma evaluate_nodes_display_not_released :
  model_suppress_graphics (model failing_headless) = true
  ∧ evaluate_nodes true [] failing_headless (Array2 1 [[1]]%Z) ["a"]
    = Run [XvfbStart; PoolOpen 2; WorkerDone 0]
          (Err (Raise ValueError ["the model failed"]))
  ∧ XvfbStop ∉ trace (evaluate_nodes true [] failing_headless
                        (Array2 1 [[1]]%Z) ["a"]).
Proof.
  split; [reflexivity|]. split; [vm_compute; reflexivity|].
  vm_compute. intros Hin.
  repeat (apply elem_of_cons in Hin as [[=]|Hin]).
  apply elem_of_nil in Hin. contradiction.
Qed.

(** ** Sanity of the embedding *)

(** On rectangular values [np.ndim] is the length of [np.shape]. *)
Lemma ndim_shape (v : pyval) :
  ∀ s, shape v = Some s → ndim v = length s.
Proof.
  induction v as [| | |items IH] using pyval_ind; simpl;
    try (intros s [= <-]; reflexivity).
  intros s. destruct items as [|x rest]; simpl; [intros [= <-]; reflexivity|].
  destruct (shape x) as [sx|] eqn:Hx; [|discriminate].
  destruct (forallb _ _); [|discriminate]. intros [= <-]. simpl. f_equal.
  apply Forall_cons_1 in IH as [IHx _]. apply IHx. exact Hx.
Qed.

(** The spec's round trip: a node matrix of ones, names [a] and [b], and
    nominal values [a = 0], [b = 0], [c = 5]. *)
Example create_model_parameters_ones :
  create_model_parameters spec_example (Array2 3 [[1; 1; 1]; [1; 1; 1]]%Z) ["a"; "b"]
  = Ok (replicate 3 (<["a" := 1%Z]> (<["b" := 1%Z]> {["c" := 5%Z]}))).
Proof. vm_compute. reflexivity. Qed.

(** The spec's end-to-end scenario: a scalar model output, not adaptive,
    evaluated three times. *)
Example run_scalar_model :
  ∃ data,
    run lengths true [] echo_headless (Array2 3 [[10; 20; 30]]%Z) (inl "a")
    = Run [XvfbStart; PoolOpen 2; WorkerDone 0; WorkerDone 1; WorkerDone 2;
           PoolClose; XvfbStop] (Ok data)
    ∧ data_items data !! "m"
      = Some {| data_labels := Some []; data_time := Some PyNan;
                data_evaluations := Some (PyArr [PyNum 10; PyNum 20; PyNum 30]) |}
    ∧ data_uncertain_parameters data = Some ["a"].
Proof. eexists. repeat split; vm_compute; reflexivity. Qed.

(** * Further properties *)

(** ** create_model_parameters: names against rows *)

Lemma map_res_ext {A B} (f g : A → res B) (xs : list A) :
  (∀ x, x ∈ xs → f x = g x) → map_res f xs = map_res g xs.
Proof.
  induction xs as [|x xs IH]; intros Hfg; simpl; [reflexivity|].
  rewrite (Hfg x) by left. rewrite IH; [reflexivity|].
  intros y Hy. apply Hfg. right. exact Hy.
Qed.

Lemma map_res_fmap {A B C} (f : B → res C) (h : A → B) (xs : list A) :
  map_res f (h <$> xs) = map_res (λ x, f (h x)) xs.
Proof.
  induction xs as [|x xs IH]; simpl; [reflexivity|]. rewrite <- IH. reflexivity.
Qed.

Lemma ret_bind {A B} (a : A) (f : A → res B) : Ok a ≫= f = f a.
Proof. reflexivity. Qed.

(** The binder reads the node only at the positions of the names. *)
Lemma assign_nodes_ext (names : list string) :
  ∀ (j : nat) (node node' : list Z) (params : gmap string Z),
    (∀ j', j ≤ j' < j + length names → node !! j' = node' !! j') →
    assign_nodes j names node params = assign_nodes j names node' params.
Proof.
  induction names as [|p names IH]; intros j node node' params Hsame; simpl in *;
    [reflexivity|].
  rewrite <- (Hsame j) by lia. destruct (node !! j); [|reflexivity].
  apply IH. intros j' Hj'. apply Hsame. lia.
Qed.

Lemma assign_nodes_short (names : list string) :
  ∀ (j : nat) (node : list Z) (params : gmap string Z),
    j ≤ length node → length node < j + length names →
    assign_nodes j names node params
    = Err (Raise IndexError ["index out of bounds"]).
Proof.
  induction names as [|p names IH]; intros j node params Hj Hshort; simpl in *;
    [lia|].
  destruct (node !! j) as [x|] eqn:Hx; [|reflexivity].
  apply lookup_lt_Some in Hx. apply IH; lia.
Qed.

Lemma iter_T_lengths (nodes : ndarray) :
  is_node_matrix nodes →
  ∃ cols, iter_T nodes = Ok cols
    ∧ length cols = ncols nodes
    ∧ Forall (λ node, length (as_sequence node) = nrows nodes) cols.
Proof.
  intros Hwf. destruct nodes as [x|xs|n rows]; simpl in *; [contradiction| |].
  - exists (Entry <$> xs). split; [reflexivity|]. split; [apply length_fmap|].
    apply Forall_fmap, Forall_forall. intros x _. reflexivity.
  - exists ((λ i, Column (column i rows)) <$> seq 0 n). split; [reflexivity|].
    split; [rewrite length_fmap; apply length_seq|].
    apply Forall_fmap, Forall_forall. intros i Hi%elem_of_seq. simpl.
    apply (column_length n); [assumption|lia].
Qed.

(** X1: on a node matrix, [create_model_parameters] returns the empty list
    when there is no column, whatever the names; with columns it returns
    one set per column when there are at most as many names as rows, and
    raises [IndexError] when there are more names than rows. *)
Theorem create_model_parameters_returns_iff (self : RunModel)
    (nodes : ndarray) (names : list string) :
  is_node_matrix nodes →
  (ncols nodes = 0 → create_model_parameters self nodes names = Ok [])
  ∧ (length names ≤ nrows nodes →
     ∃ sets, create_model_parameters self nodes names = Ok sets
       ∧ length sets = ncols nodes)
  ∧ (0 < ncols nodes → nrows nodes < length names →
     create_model_parameters self nodes names
     = Err (Raise IndexError ["index out of bounds"])).
Proof.
  intros Hwf. destruct (iter_T_lengths nodes Hwf) as (cols & Hiter & Hlen & Hrows).
  unfold create_model_parameters. rewrite Hiter. simpl. split; [|split].
  - intros Hzero. destruct cols; [reflexivity|]. simpl in Hlen. lia.
  - intros Hfit.
    destruct (bind_columns self names cols) as (sets & Hsets & Hsize & _).
    { eapply Forall_impl; [exact Hrows|]. intros node ->. exact Hfit. }
    exists sets. split; [exact Hsets|]. congruence.
  - intros Hsome Hmany. destruct cols as [|node cols]; [simpl in Hlen; lia|].
    apply Forall_cons_1 in Hrows as [Hnode _]. simpl.
    rewrite assign_nodes_short by lia. reflexivity.
Qed.

Lemma create_model_parameters_returns_iff_witness :
  create_model_parameters spec_example (Array2 2 [[1; 2]]%Z) ["a"; "b"]
  = Err (Raise IndexError ["index out of bounds"]).
Proof.
  refine (proj2 (proj2 (create_model_parameters_returns_iff spec_example
            (Array2 2 [[1; 2]]%Z) ["a"; "b"] _)) _ _).
  - simpl. repeat constructor.
  - simpl. lia.
  - simpl. lia.
Defined.

Lemma column_take (n i k : nat) (rows : list (list Z)) :
  Forall (λ row, length row = n) rows → i < n →
  ∀ j, j < k → column i (take k rows) !! j = column i rows !! j.
Proof.
  intros Hwf Hi j Hj.
  rewrite (column_lookup n i (take k rows)) by (try apply Forall_take; assumption).
  rewrite (column_lookup n i rows Hwf Hi), lookup_take_lt by exact Hj.
  reflexivity.
Qed.

(** X2: rows of the node matrix beyond the number of names are not read:
    the parameter sets are those of the matrix cut to its first rows. *)
Theorem create_model_parameters_extra_rows (self : RunModel) (n : nat)
    (rows : list (list Z)) (names : list string) :
  Forall (λ row, length row = n) rows →
  create_model_parameters self (Array2 n rows) names
  = create_model_parameters self (Array2 n (take (length names) rows)) names.
Proof.
  intros Hwf. unfold create_model_parameters, iter_T.
  rewrite !ret_bind, !map_res_fmap. apply map_res_ext.
  intros i Hi%elem_of_seq. simpl.
  rewrite (assign_nodes_ext names 0 (column i rows)
             (column i (take (length names) rows)) ∅); [reflexivity|].
  intros j Hj. symmetry. apply (column_take n); [assumption|lia|lia].
Qed.

Lemma create_model_parameters_extra_rows_witness :
  create_model_parameters spec_example (Array2 2 [[1; 2]; [3; 4]; [5; 6]]%Z) ["a"; "b"]
  = create_model_parameters spec_example (Array2 2 [[1; 2]; [3; 4]]%Z) ["a"; "b"].
Proof.
  apply (create_model_parameters_extra_rows spec_example 2
           [[1; 2]; [3; 4]; [5; 6]]%Z ["a"; "b"]).
  repeat constructor.
Defined.

(** ** is_regular: what it answers and how it fails *)

(** X3: when every evaluation has values for the feature, [is_regular]
    returns, and it answers true exactly when every evaluation after the
    first valid one, valid or not, has the length of that first valid one;
    invalid evaluations before it are skipped, and without a valid
    evaluation the answer is true. *)
Theorem is_regular_true_iff {L : Type} `{EqDecision L} (lengths : pyval → L)
    (results : list Evaluation) (feature : string) (vs : list pyval) :
  raw_values results feature = Ok vs →
  ∃ b, is_regular lengths results feature = Ok b
    ∧ (b = true ↔
       ∀ v rest, skip_invalid vs = v :: rest →
                 Forall (λ w, lengths w = lengths v) rest).
Proof.
  intros Hvs. eexists. split; [apply is_regular_characterised; exact Hvs|].
  destruct (skip_invalid vs) as [|v rest].
  - split; [discriminate|reflexivity].
  - rewrite forallb_forall. split.
    + intros Hall v' rest' [= <- <-]. apply Forall_forall. intros w Hw.
      apply list_elem_of_In, Hall, bool_decide_eq_true in Hw. exact Hw.
    + intros Hall w Hw. apply bool_decide_eq_true.
      specialize (Hall v rest eq_refl). rewrite Forall_forall in Hall.
      apply Hall, list_elem_of_In, Hw.
Qed.

Lemma is_regular_true_iff_witness :
  ∃ b, is_regular lengths results_valid_invalid_valid "feature1d" = Ok b
    ∧ (b = true ↔
       ∀ v rest,
         skip_invalid [nums [1; 2; 3]%Z; PyNan; nums [4; 5; 6]%Z] = v :: rest →
         Forall (λ w, lengths w = lengths v) rest).
Proof.
  apply (is_regular_true_iff lengths results_valid_invalid_valid "feature1d"
           [nums [1; 2; 3]%Z; PyNan; nums [4; 5; 6]%Z]).
  reflexivity.
Defined.


Section is_regular_errors.
Context {L : Type} `{EqDecision L} (lengths : pyval → L) (feature : string).



End is_regular_errors.



Lemma is_regular_without_late_markers_witness :
  is_regular lengths results_invalid_first "feature1d"
  = is_regular_spec lengths results_invalid_first "feature1d".
Proof.
  apply (is_regular_without_late_markers lengths "feature1d"
           results_invalid_first
           [PyNan; nums [1; 2; 3]%Z; nums [4; 5; 6]%Z]).
  - reflexivity.
  - repeat constructor.
Defined.

(** ** Gathering the times of an adaptive 1-D feature *)

Lemma reraise_Ok {A} (msg : string) (r : res A) (a : A) :
  reraise msg r = Ok a → r = Ok a.
Proof.
  destruct r as [a'|[kind args]]; simpl; [tauto|].
  case_bool_decide; discriminate.
Qed.

Lemma np_all_isnan_Err (v : pyval) (e : exn) :
  np_all_isnan v = Err e →
  e = Raise ValueError ["inhomogeneous shape"]
  ∨ e = Raise TypeError ["ufunc 'isnan' not supported for the input types"].
Proof.
  unfold np_all_isnan. destruct (shape v); [|intros [= <-]; left; reflexivity].
  destruct (existsb is_None (leaves v)); [|discriminate].
  intros [= <-]. right. reflexivity.
Qed.

(** X6: a feature other than the model whose own time is valid contributes
    that time and its interpolation object; the model's entry is not read,
    so it may be missing or malformed. *)
Theorem gather_prefers_own_time (self : RunModel) (feature : string)
    (result : Evaluation) (times : list pyval) (interps : list Interpolation)
    (t : pyval) (inter : Interpolation) :
  feature ≠ model_name (model self) →
  get_time result feature = Ok t → np_all_isnan t = Ok false →
  get_interpolation result feature = Ok inter →
  gather self feature (times, interps) result
  = Ok (times ++ [t], interps ++ [inter]).
Proof.
  intros Hne Ht Hvalid Hinter. unfold gather.
  rewrite Ht. simpl. rewrite Hvalid. simpl.
  rewrite bool_decide_eq_false_2 by exact Hne. simpl.
  rewrite Hinter. reflexivity.
Qed.

Lemma gather_prefers_own_time_witness :
  get_time result_feature_alone "m" = Err (Raise KeyError ["m"])
  ∧ gather spec_example "f" ([], []) result_feature_alone
    = Ok ([nums [0; 1]%Z], [ {| spline := Z.double |} ]).
Proof.
  split; [reflexivity|].
  apply (gather_prefers_own_time spec_example "f" result_feature_alone [] []
           (nums [0; 1]%Z) {| spline := Z.double |}); [discriminate|..];
    reflexivity.
Defined.

(** X7: when [np.isnan] refuses the feature's own time (ragged, or holding
    [None]), there is no fall back to the model's time: the [TypeError] or
    [ValueError] is raised again with the explanation appended to its
    arguments. *)
Theorem gather_malformed_time (self : RunModel) (feature : string)
    (result : Evaluation) (acc : list pyval * list Interpolation)
    (t : pyval) (kind : exn_kind) (args : list string) :
  get_time result feature = Ok t →
  np_all_isnan t = Err (Raise kind args) →
  (kind = TypeError ∨ kind = ValueError)
  ∧ gather self feature acc result
    = Err (Raise kind
             (args ++ [feature +:+ ": the time of is most likely not regular, unable to interpolate"])).
Proof.
  intros Ht Herr. destruct acc as [times interps].
  unfold gather. rewrite Ht. simpl. rewrite Herr. simpl.
  destruct (np_all_isnan_Err t _ Herr) as [[= -> ->]|[= -> ->]]; simpl.
  - split; [right; reflexivity|reflexivity].
  - split; [left; reflexivity|reflexivity].
Qed.

Lemma gather_malformed_time_witness :
  (ValueError = TypeError ∨ ValueError = ValueError)
  ∧ gather spec_example "f" ([], []) result_ragged_time
    = Err (Raise ValueError
             ["inhomogeneous shape";
              "f: the time of is most likely not regular, unable to interpolate"]).
Proof.
  apply (gather_malformed_time spec_example "f" result_ragged_time ([], [])
           (PyArr [PyNum 1; nums [1; 2]%Z]) ValueError ["inhomogeneous shape"]);
    reflexivity.
Defined.

(** One turn of the gathering loop that succeeds adds one interpolation
    object and one valid time, or two for the model's own output. *)
Lemma gather_Ok_inv (self : RunModel) (feature : string) (result : Evaluation)
    (times times' : list pyval) (interps interps' : list Interpolation) :
  gather self feature (times, interps) result = Ok (times', interps') →
  ∃ ts inter,
    times' = times ++ ts ∧ interps' = interps ++ [inter]
    ∧ get_interpolation result feature = Ok inter
    ∧ Forall (λ t, np_all_isnan t = Ok false) ts
    ∧ Forall (λ t, get_time result feature = Ok t
                   ∨ get_time result (model_name (model self)) = Ok t) ts
    ∧ length ts = if bool_decide (feature = model_name (model self)) then 2 else 1.
Proof.
  unfold gather.
  intros ([ti te] & Hown%reraise_Ok & Hrest)%bind_Ok.
  apply bind_Ok in Hown as (t & Ht & (invalid & Hinvalid & Hown)%bind_Ok).
  apply bind_Ok in Hrest as ([ti' te'] & Hmodel%reraise_Ok & Hrest).
  destruct te'; simpl in Hrest; [|discriminate].
  apply bind_Ok in Hrest as (inter & Hinter & [= <- <-]).
  case_bool_decide as Hfeature; simpl in Hmodel.
  - apply bind_Ok in Hmodel as (tm & Htm & (invalid' & Hinvalid' & Hmodel)%bind_Ok).
    subst feature. rewrite Ht in Htm. injection Htm as <-.
    rewrite Hinvalid in Hinvalid'. injection Hinvalid' as <-.
    destruct invalid; simpl in *.
    + injection Hown as <- <-. discriminate.
    + injection Hown as <- <-. injection Hmodel as <-.
      exists [t; t], inter. rewrite <- app_assoc. repeat split; auto.
  - destruct invalid; simpl in *.
    + injection Hown as <- <-. simpl in Hmodel.
      apply bind_Ok in Hmodel as (tm & Htm & (invalid' & Hinvalid' & Hmodel)%bind_Ok).
      destruct invalid'; simpl in Hmodel; [discriminate|].
      injection Hmodel as <-.
      exists [tm], inter. repeat split; auto.
    + injection Hown as <- <-. simpl in Hmodel. injection Hmodel as <-.
      exists [t], inter. repeat split; auto.
Qed.

(** X8: when the gathering loop of an adaptive 1-D feature returns, it has
    one interpolation object per evaluation, in order, and only valid
    times, each the feature's or the model's: one per evaluation for a
    feature, two per evaluation for the model's own output, whose time is
    gathered twice. *)
Theorem gather_counts (self : RunModel) (feature : string)
    (results : list Evaluation) (times : list pyval)
    (interps : list Interpolation) :
  for_res (gather self feature) results ([], []) = Ok (times, interps) →
  Forall2 (λ result inter, get_interpolation result feature = Ok inter)
    results interps
  ∧ Forall (λ t, np_all_isnan t = Ok false) times
  ∧ Forall (λ t, ∃ result, result ∈ results
                 ∧ (get_time result feature = Ok t
                    ∨ get_time result (model_name (model self)) = Ok t)) times
  ∧ length times
    = (if bool_decide (feature = model_name (model self)) then 2 else 1)
      * length results.
Proof.
  assert (∀ rs times0 interps0 times1 interps1,
            for_res (gather self feature) rs (times0, interps0)
            = Ok (times1, interps1) →
            ∃ ts is1,
              times1 = times0 ++ ts ∧ interps1 = interps0 ++ is1
              ∧ Forall2 (λ result inter,
                           get_interpolation result feature = Ok inter) rs is1
              ∧ Forall (λ t, np_all_isnan t = Ok false) ts
              ∧ Forall (λ t, ∃ result, result ∈ rs
                             ∧ (get_time result feature = Ok t
                                ∨ get_time result (model_name (model self)) = Ok t)) ts
              ∧ length ts
                = (if bool_decide (feature = model_name (model self)) then 2 else 1)
                  * length rs) as Hgen.
  { induction rs as [|r rs IH]; intros times0 interps0 times1 interps1; simpl.
    - intros [= <- <-]. exists [], []. rewrite !app_nil_r.
      repeat split; try constructor. simpl. lia.
    - intros ([tm im] & Hstep & Hrest)%bind_Ok.
      apply gather_Ok_inv in Hstep
        as (ts & inter & -> & -> & Hinter & Hvalid & Hfrom & Hlen).
      apply IH in Hrest as (ts' & is' & -> & -> & Hinters & Hvalid' & Hfrom' & Hlen').
      exists (ts ++ ts'), (inter :: is'). rewrite <- !app_assoc.
      split; [reflexivity|]. split; [reflexivity|].
      split; [constructor; assumption|].
      split; [apply Forall_app; split; assumption|]. split.
      + apply Forall_app. split.
        * eapply Forall_impl; [exact Hfrom|]. intros t Ht. exists r.
          split; [left|exact Ht].
        * eapply Forall_impl; [exact Hfrom'|]. intros t (r' & Hr' & Ht).
          exists r'. split; [right; exact Hr'|exact Ht].
      + rewrite length_app, Hlen, Hlen'. lia. }
  intros Hrun. apply Hgen in Hrun as (ts & is1 & -> & -> & H1 & H2 & H3 & H4).
  simpl. repeat split; assumption.
Qed.

Lemma gather_counts_witness :
  ∃ times interps,
    for_res (gather adaptive_f "f") results_adaptive ([], []) = Ok (times, interps)
    ∧ length times = 2 ∧ length interps = 2.
Proof.
  exists [nums [0; 1]%Z; nums [0; 2]%Z],
         [ {| spline := Z.double |}; {| spline := Z.double |} ].
  destruct (gather_counts adaptive_f "f" results_adaptive
              [nums [0; 1]%Z; nums [0; 2]%Z]
              [ {| spline := Z.double |}; {| spline := Z.double |} ] eq_refl)
    as (Hinters & _ & _ & Hlen).
  split; [reflexivity|]. split; [exact Hlen|].
  symmetry. exact (Forall2_length _ _ _ Hinters).
Defined.

(** ** results_to_data: what the dataset holds *)

Lemma registered_NoDup (self : RunModel) (keys : list string) :
  ∀ data, NoDup (data_features data) →
          NoDup (data_features (foldl (add_feature_labels self) data keys)).
Proof.
  induction keys as [|k keys IH]; intros data Hnodup; simpl; [exact Hnodup|].
  apply IH. rewrite data_features_add_feature_labels.
  case_bool_decide as Hk; [exact Hnodup|].
  apply NoDup_app. split; [exact Hnodup|]. split; [|apply NoDup_singleton].
  intros x Hx Hxk. apply list_elem_of_singleton in Hxk as ->. contradiction.
Qed.

Lemma registered_order (self : RunModel) (keys : list string) :
  ∀ data, NoDup keys → (∀ k, k ∈ keys → k ∉ data_features data) →
          data_features (foldl (add_feature_labels self) data keys)
          = data_features data ++ keys.
Proof.
  induction keys as [|k keys IH]; intros data Hnodup Hfresh; simpl.
  - rewrite app_nil_r. reflexivity.
  - apply NoDup_cons in Hnodup as [Hk Hnodup].
    rewrite IH; [| exact Hnodup |].
    + rewrite data_features_add_feature_labels.
      rewrite bool_decide_eq_false_2 by (apply Hfresh; left).
      rewrite <- app_assoc. reflexivity.
    + intros k' Hk'. rewrite data_features_add_feature_labels.
      rewrite bool_decide_eq_false_2 by (apply Hfresh; left).
      intros [Hin|Hin]%elem_of_app.
      * revert Hin. apply Hfresh. right. exact Hk'.
      * apply list_elem_of_singleton in Hin as ->. contradiction.
Qed.

Lemma add_feature_labels_other (self : RunModel) (data : Data) (k g : string) :
  k ≠ g →
  data_items (add_feature_labels self data k) !! g = data_items data !! g.
Proof.
  intros Hne. unfold add_feature_labels.
  case_bool_decide; [|destruct (features_labels (features self) !! k)]; simpl;
    rewrite ?(lookup_alter_ne _ _ _ _ Hne), lookup_insert_ne by exact Hne;
    reflexivity.
Qed.

Lemma add_feature_labels_self (self : RunModel) (data : Data) (g : string) :
  ∃ d, data_items (add_feature_labels self data g) !! g = Some d
    ∧ data_labels d = labels_of self g.
Proof.
  unfold add_feature_labels, labels_of.
  case_bool_decide; [|destruct (features_labels (features self) !! g)]; simpl;
    rewrite ?lookup_alter_eq, lookup_insert_eq; simpl;
    eexists; split; reflexivity.
Qed.

Lemma registered_labels (self : RunModel) (keys : list string) (g : string) :
  ∀ data,
    g ∈ keys ∨ (∃ d, data_items data !! g = Some d
                     ∧ data_labels d = labels_of self g) →
    ∃ d, data_items (foldl (add_feature_labels self) data keys) !! g = Some d
      ∧ data_labels d = labels_of self g.
Proof.
  induction keys as [|k keys IH]; intros data Hcase; simpl.
  - destruct Hcase as [Hin|Hd]; [|exact Hd]. apply elem_of_nil in Hin. contradiction.
  - apply IH. destruct (decide (k = g)) as [->|Hne].
    + right. apply add_feature_labels_self.
    + destruct Hcase as [[Heq|Hin]%elem_of_cons|Hd]; [congruence|left; exact Hin|].
      right. rewrite add_feature_labels_other by exact Hne. exact Hd.
Qed.

Lemma registered_uncertain_parameters (self : RunModel) (keys : list string) :
  ∀ data,
    data_uncertain_parameters (foldl (add_feature_labels self) data keys)
    = data_uncertain_parameters data.
Proof.
  induction keys as [|k keys IH]; intros data; simpl; [reflexivity|].
  rewrite IH. unfold add_feature_labels.
  case_bool_decide; [|destruct (features_labels (features self) !! k)];
    reflexivity.
Qed.

(** A turn of the storing loop that succeeds leaves the registration alone
    and sets the time and the evaluations of its feature. *)
Lemma store_feature_frame (self : RunModel) (results : list Evaluation)
    (data data' : Data) (g : string) (tr : list event) :
  store_feature self results data g = Run tr (Ok data') →
  data_features data' = data_features data
  ∧ data_model_name data' = data_model_name data
  ∧ data_uncertain_parameters data' = data_uncertain_parameters data
  ∧ (∀ h, h ≠ g → data_items data' !! h = data_items data !! h)
  ∧ (∀ d, data_items data !! g = Some d →
          ∃ t e, data_items data' !! g = Some (set_time_evaluations t e d)).
Proof.
  intros (t & e & ->)%store_feature_Ok_inv. simpl.
  repeat split; try reflexivity.
  - intros h Hne. apply lookup_alter_ne. congruence.
  - intros d Hd. exists t, e. rewrite lookup_alter_eq, Hd. reflexivity.
Qed.

Lemma store_loop_frame (self : RunModel) (results : list Evaluation)
    (fs : list string) :
  ∀ (acc out : Data) (tr : list event),
    for_M (store_feature self results) fs acc = Run tr (Ok out) →
    data_features out = data_features acc
    ∧ data_model_name out = data_model_name acc
    ∧ data_uncertain_parameters out = data_uncertain_parameters acc
    ∧ ∀ g d, data_items acc !! g = Some d →
        ∃ d', data_items out !! g = Some d'
          ∧ data_labels d' = data_labels d
          ∧ (g ∈ fs ∨ (is_Some (data_time d) ∧ is_Some (data_evaluations d)) →
             is_Some (data_time d') ∧ is_Some (data_evaluations d')).
Proof.
  induction fs as [|f fs IH]; intros acc out tr Hrun; simpl in Hrun.
  - injection Hrun as <- <-. repeat split; try reflexivity.
    intros g d Hd. exists d. repeat split; try assumption;
      destruct H as [Hin|[? ?]]; try assumption;
      apply elem_of_nil in Hin; contradiction.
  - apply M_bind_Ok_inv in Hrun as (t1 & a & t2 & Hf & Hrest & ->).
    apply store_feature_frame in Hf as (Hfeat & Hname & Hunc & Hother & Hself).
    destruct (IH a out t2 Hrest) as (Hfeat' & Hname' & Hunc' & Hitems).
    split; [congruence|]. split; [congruence|]. split; [congruence|].
    intros g d Hd. destruct (decide (g = f)) as [->|Hne].
    + destruct (Hself d Hd) as (t & e & Ha).
      destruct (Hitems f _ Ha) as (d' & Hd' & Hlabels & Hset).
      exists d'. split; [exact Hd'|]. split; [exact Hlabels|].
      intros _. apply Hset. right. split; eexists; reflexivity.
    + destruct (Hitems g d) as (d' & Hd' & Hlabels & Hset).
      { rewrite Hother by exact Hne. exact Hd. }
      exists d'. split; [exact Hd'|]. split; [exact Hlabels|].
      intros [[Heq|Hin]%elem_of_cons|Hhas]; [congruence| |]; apply Hset; auto.
Qed.

(** X9: the dataset [results_to_data] returns has the features of the first
    result, each once, in the order of their first occurrence; it records
    the model's name and no uncertain parameters; and every feature has its
    labels (the model's own, or the entry of [features.labels], or none),
    a time and evaluations. *)
Theorem results_to_data_dataset {L : Type} `{EqDecision L}
    (lengths : pyval → L) (self : RunModel) (results : list Evaluation)
    (tr : list event) (data : Data) :
  results_to_data lengths self results = Run tr (Ok data) →
  ∃ r0, first_result results = Ok r0
    ∧ NoDup (data_features data)
    ∧ (∀ g, g ∈ data_features data ↔ g ∈ r0.*1)
    ∧ (NoDup r0.*1 → data_features data = r0.*1)
    ∧ data_model_name data = Some (model_name (model self))
    ∧ data_uncertain_parameters data = None
    ∧ ∀ g, g ∈ r0.*1 →
        ∃ d, data_items data !! g = Some d
          ∧ data_labels d = labels_of self g
          ∧ is_Some (data_time d) ∧ is_Some (data_evaluations d).
Proof.
  intros Hrun.
  destruct (first_result results) as [r0|e] eqn:Hr0.
  2:{ unfold results_to_data in Hrun. rewrite Hr0 in Hrun. discriminate. }
  rewrite (results_to_data_checked lengths self results r0 Hr0) in Hrun.
  destruct (check_regularity lengths self results (register_features self r0));
    [|discriminate].
  apply store_loop_frame in Hrun as (Hfeat & Hname & Hunc & Hitems).
  exists r0. split; [reflexivity|]. rewrite Hfeat, Hname, Hunc.
  split; [apply registered_NoDup; constructor|].
  split; [intros g; apply register_features_keys|].
  split.
  { intros Hnodup. unfold register_features. simpl.
    rewrite registered_order; [reflexivity|exact Hnodup|].
    intros k _. apply not_elem_of_nil. }
  split; [reflexivity|].
  split; [apply (registered_uncertain_parameters self r0.*1 Data_new)|].
  intros g Hg.
  destruct (registered_labels self r0.*1 g Data_new (or_introl Hg))
    as (d & Hd & Hlabels).
  destruct (Hitems g d Hd) as (d' & Hd' & Hlabels' & Hset).
  exists d'. split; [exact Hd'|]. split; [congruence|].
  apply Hset. left. apply register_features_keys. exact Hg.
Qed.

Lemma results_to_data_dataset_witness :
  results_to_data lengths spec_example results_plain = Run [] (Ok data_plain)
  ∧ ∃ r0, first_result results_plain = Ok r0
      ∧ NoDup (data_features data_plain)
      ∧ (∀ g, g ∈ data_features data_plain ↔ g ∈ r0.*1)
      ∧ (NoDup r0.*1 → data_features data_plain = r0.*1)
      ∧ data_model_name data_plain = Some (model_name (model spec_example))
      ∧ data_uncertain_parameters data_plain = None
      ∧ ∀ g, g ∈ r0.*1 →
          ∃ d, data_items data_plain !! g = Some d
            ∧ data_labels d = labels_of spec_example g
            ∧ is_Some (data_time d) ∧ is_Some (data_evaluations d).
Proof.
  split; [vm_compute; reflexivity|].
  apply (results_to_data_dataset lengths spec_example results_plain [] data_plain).
  vm_compute. reflexivity.
Defined.

Lemma store_loop_stored (self : RunModel) (results : list Evaluation)
    (g : string) (t e : pyval) (trg : list event) :
  (∀ data, store_feature self results data g
           = Run trg (Ok (update_feature g (set_time_evaluations t e) data))) →
  ∀ (fs : list string) (acc out : Data) (tr : list event),
    for_M (store_feature self results) fs acc = Run tr (Ok out) →
    is_Some (data_items acc !! g) →
    g ∈ fs ∨ stored g t e acc →
    stored g t e out.
Proof.
  intros Hg. induction fs as [|f fs IH]; intros acc out tr Hrun Hsome Hcase;
    simpl in Hrun.
  - injection Hrun as <- <-. destruct Hcase as [Hin|Hstored]; [|exact Hstored].
    apply elem_of_nil in Hin. contradiction.
  - apply M_bind_Ok_inv in Hrun as (t1 & a & t2 & Hf & Hrest & ->).
    destruct (decide (f = g)) as [->|Hne].
    + rewrite Hg in Hf. injection Hf as <- <-. destruct Hsome as [d Hd].
      apply (IH _ out t2 Hrest).
      * simpl. rewrite lookup_alter_eq, Hd. eexists. reflexivity.
      * right. eexists. split; [simpl; rewrite lookup_alter_eq, Hd; reflexivity|].
        split; reflexivity.
    + apply store_feature_frame in Hf as (_ & _ & _ & Hother & _).
      apply (IH _ out t2 Hrest).
      * rewrite Hother by congruence. exact Hsome.
      * destruct Hcase as [[Heq|Hin]%elem_of_cons|(d & Hd & Hq)];
          [congruence|left; exact Hin|].
        right. exists d. split; [|exact Hq]. rewrite Hother by congruence. exact Hd.
Qed.

Lemma for_M_silent {A B} (body : B → A → M B) (xs : list A) :
  (∀ x, x ∈ xs → ∀ acc, ∃ acc', body acc x = Run [] (Ok acc')) →
  ∀ acc, ∃ out, for_M body xs acc = Run [] (Ok out).
Proof.
  induction xs as [|x xs IH]; intros Hbody acc; simpl.
  - eexists. reflexivity.
  - destruct (Hbody x (list_elem_of_here x xs) acc) as [acc' ->].
    destruct (IH (λ y Hy, Hbody y (list_elem_of_further y x xs Hy)) acc')
      as [out Hout].
    exists out. rewrite M_bind_Run, Hout. reflexivity.
Qed.

Lemma store_feature_plain (self : RunModel) (results : list Evaluation)
    (data : Data) (g : string) (r0 : Evaluation) (t : pyval) (vs : list pyval) :
  is_adaptive self g = false →
  bool_decide (g = model_name (model self)) && model_ignore (model self) = false →
  first_result results = Ok r0 → get_time r0 g = Ok t →
  raw_values results g = Ok vs →
  store_feature self results data g
  = Run [] (Ok (update_feature g (set_time_evaluations t (PyArr vs)) data)).
Proof.
  intros Hadaptive Hignore Hr0 Ht Hvs. unfold store_feature.
  rewrite Hadaptive, Hignore, Hr0. simpl. rewrite Ht. simpl.
  rewrite Hvs. reflexivity.
Qed.

(** X10: when no feature of the first result is adaptive, the model's
    output is not ignored, every evaluation has values for every feature,
    the first has their times, and every feature is regular, then
    [results_to_data] returns a dataset and logs nothing; each feature holds
    the first evaluation's time and the list of every evaluation's values,
    in order. *)
Theorem results_to_data_plain_features {L : Type} `{EqDecision L}
    (lengths : pyval → L) (self : RunModel) (results : list Evaluation)
    (r0 : Evaluation) :
  first_result results = Ok r0 →
  (∀ g, g ∈ r0.*1 →
        is_adaptive self g = false
        ∧ bool_decide (g = model_name (model self)) && model_ignore (model self)
          = false
        ∧ is_regular lengths results g = Ok true
        ∧ ∃ t vs, get_time r0 g = Ok t ∧ raw_values results g = Ok vs) →
  ∃ data,
    results_to_data lengths self results = Run [] (Ok data)
    ∧ ∀ g t vs, g ∈ r0.*1 → get_time r0 g = Ok t →
                raw_values results g = Ok vs →
                stored g t (PyArr vs) data.
Proof.
  intros Hr0 Hplain.
  rewrite (results_to_data_checked lengths self results r0 Hr0).
  unfold check_regularity. rewrite check_loop_pass.
  2:{ intros g Hg%register_features_keys _. apply (Hplain g Hg). }
  destruct (for_M_silent (store_feature self results)
              (data_features (register_features self r0))) with
    (acc := register_features self r0) as [data Hdata].
  { intros g Hg%register_features_keys acc.
    destruct (Hplain g Hg) as (Hadaptive & Hignore & _ & t & vs & Ht & Hvs).
    eexists. eapply store_feature_plain; eassumption. }
  exists data. split; [exact Hdata|].
  intros g t vs Hg Ht Hvs.
  destruct (Hplain g Hg) as (Hadaptive & Hignore & _).
  eapply (store_loop_stored self results g t (PyArr vs) []); [|exact Hdata| |].
  - intros acc. eapply store_feature_plain; eassumption.
  - unfold register_features. simpl. apply registered_items. right. exact Hg.
  - left. apply register_features_keys. exact Hg.
Qed.

Lemma results_to_data_plain_features_witness :
  ∃ data,
    results_to_data lengths spec_example results_plain = Run [] (Ok data)
    ∧ ∀ g t vs,
        g ∈ [("m", envelope (PyNum 4) PyNan);
             ("a", envelope (nums [1; 2]%Z) (nums [0; 1]%Z))].*1 →
        get_time [("m", envelope (PyNum 4) PyNan);
                  ("a", envelope (nums [1; 2]%Z) (nums [0; 1]%Z))] g = Ok t →
        raw_values results_plain g = Ok vs →
        stored g t (PyArr vs) data.
Proof.
  apply (results_to_data_plain_features lengths spec_example results_plain);
    [reflexivity|].
  intros g Hg. simpl in Hg.
  apply elem_of_cons in Hg as [->|Hg];
    [|apply list_elem_of_singleton in Hg as ->];
    (split; [reflexivity|]); (split; [reflexivity|]);
    (split; [vm_compute; reflexivity|]); eexists _, _; split; reflexivity.
Defined.

Lemma parallel_lists (feature : string) (results : list Evaluation) :
  ∀ (vs ts evaluations times : list pyval),
    Forall2 (λ result v, get_values result feature = Ok v) results vs →
    Forall2 (λ result t, get_time result feature = Ok t) results ts →
    for_res (λ '(evaluations, times) result,
               v ← get_values result feature;
               t ← get_time result feature;
               Ok (evaluations ++ [v], times ++ [t]))
            results (evaluations, times)
    = Ok (evaluations ++ vs, times ++ ts).
Proof.
  induction results as [|r results IH]; intros vs ts evaluations times Hvs Hts.
  - apply Forall2_nil_inv_l in Hvs as ->. apply Forall2_nil_inv_l in Hts as ->.
    rewrite !app_nil_r. reflexivity.
  - apply Forall2_cons_inv_l in Hvs as (v & vs' & Hv & Hvs & ->).
    apply Forall2_cons_inv_l in Hts as (t & ts' & Ht & Hts & ->).
    simpl. rewrite Hv, Ht. simpl. rewrite (IH vs' ts') by assumption.
    rewrite <- !app_assoc. reflexivity.
Qed.

(** X11: when the model is configured to be ignored and its name is not
    listed as an adaptive feature, the model's own output is exempt from
    the regularity check, and what is stored for it is the list of every
    evaluation's time and the list of every evaluation's values, in order,
    whatever their shapes. *)
Theorem results_to_data_ignored_model {L : Type} `{EqDecision L}
    (lengths : pyval → L) (self : RunModel) (results : list Evaluation)
    (r0 : Evaluation) (vs ts : list pyval) :
  model_ignore (model self) = true →
  model_name (model self) ∉ features_adaptive (features self) →
  first_result results = Ok r0 → model_name (model self) ∈ r0.*1 →
  Forall2 (λ result v, get_values result (model_name (model self)) = Ok v)
    results vs →
  Forall2 (λ result t, get_time result (model_name (model self)) = Ok t)
    results ts →
  must_be_regular self (model_name (model self)) = false
  ∧ (∀ data,
       store_feature self results data (model_name (model self))
       = Run [] (Ok (update_feature (model_name (model self))
                       (set_time_evaluations (PyArr ts) (PyArr vs)) data)))
  ∧ (∀ tr data,
       results_to_data lengths self results = Run tr (Ok data) →
       stored (model_name (model self)) (PyArr ts) (PyArr vs) data).
Proof.
  intros Hignore Hplain Hr0 Hin Hvs Hts.
  assert (∀ data,
            store_feature self results data (model_name (model self))
            = Run [] (Ok (update_feature (model_name (model self))
                            (set_time_evaluations (PyArr ts) (PyArr vs)) data)))
    as Hstore.
  { intros data. unfold store_feature, is_adaptive.
    rewrite Hignore, (bool_decide_eq_false_2 _ Hplain), andb_false_r.
    rewrite bool_decide_eq_true_2 by reflexivity. simpl.
    rewrite (parallel_lists _ results vs ts [] []) by assumption. reflexivity. }
  split; [|split; [exact Hstore|]].
  - unfold must_be_regular. rewrite Hignore.
    rewrite bool_decide_eq_true_2 by reflexivity. reflexivity.
  - intros tr data.
    rewrite (results_to_data_checked lengths self results r0 Hr0).
    destruct (check_regularity lengths self results (register_features self r0));
      [|discriminate].
    intros Hrun.
    eapply (store_loop_stored self results _ _ _ [] Hstore); [exact Hrun| |].
    + unfold register_features. simpl. apply registered_items. right. exact Hin.
    + left. apply register_features_keys. exact Hin.
Qed.

Lemma results_to_data_ignored_model_witness :
  must_be_regular ignoring "m" = false
  ∧ store_feature ignoring results_ignored Data_new "m"
    = Run [] (Ok (update_feature "m"
                    (set_time_evaluations
                       (PyArr [nums [0; 1; 2]%Z; PyNan; nums [0; 1]%Z])
                       (PyArr [nums [1; 2; 3]%Z; PyNan; matrix_2x2]))
                    Data_new)).
Proof.
  destruct (results_to_data_ignored_model lengths ignoring results_ignored
              [("m", envelope (nums [1; 2; 3]%Z) (nums [0; 1; 2]%Z))]
              [nums [1; 2; 3]%Z; PyNan; matrix_2x2]
              [nums [0; 1; 2]%Z; PyNan; nums [0; 1]%Z]
              eq_refl) as (Hcheck & Hstore & _).
  - apply not_elem_of_nil.
  - reflexivity.
  - simpl. left.
  - repeat constructor.
  - repeat constructor.
  - split; [exact Hcheck|]. exact (Hstore Data_new).
Defined.

(** ** results_to_data: what it logs *)

Lemma store_feature_trace (self : RunModel) (results : list Evaluation)
    (data : Data) (g : string) :
  trace (store_feature self results data g) = []
  ∨ (trace (store_feature self results data g) = [LogWarning (warning_0d_msg g)]
     ∧ is_adaptive self g = true
     ∧ ∃ r0 v0, first_result results = Ok r0 ∧ get_values r0 g = Ok v0
                ∧ ndim v0 = 0).
Proof.
  unfold store_feature. destruct (is_adaptive self g) eqn:Hadaptive.
  - destruct (r0 ← first_result results; get_values r0 g) as [v0|e] eqn:Hv0;
      [rewrite lift_Ok_bind|left; reflexivity].
    apply bind_Ok in Hv0 as (r0 & Hr0 & Hv0).
    case_bool_decide as Hge; [left; reflexivity|].
    case_bool_decide as H1.
    + left. destruct (for_res (gather self g) results ([], [])) as [[ti ins]|e];
        [rewrite lift_Ok_bind|reflexivity].
      destruct (apply_interpolation ti ins) as [[t ev]|e]; reflexivity.
    + right. rewrite emit_bind. split.
      * destruct (r1 ← first_result results; get_time r1 g) as [t|e];
          [rewrite lift_Ok_bind|reflexivity].
        destruct (raw_values results g) as [vs|e]; reflexivity.
      * split; [reflexivity|]. exists r0, v0. repeat split; try assumption. lia.
  - left. destruct (bool_decide (g = model_name (model self))
                    && model_ignore (model self)).
    + destruct (for_res _ results ([], [])) as [[evs ts]|e]; reflexivity.
    + destruct (r0 ← first_result results; get_time r0 g) as [t|e];
        [rewrite lift_Ok_bind|reflexivity].
      destruct (raw_values results g) as [vs|e]; reflexivity.
Qed.

Lemma M_bind_trace {A B} (m : M A) (f : A → M B) :
  trace (m ≫= f)
  = trace m ++ match outcome m with
               | Ok a => trace (f a)
               | Err _ => []
               end.
Proof.
  destruct m as [t [a|e]]; simpl.
  - destruct (f a). reflexivity.
  - rewrite app_nil_r. reflexivity.
Qed.

(** X12: whatever the results and however it ends, [results_to_data] logs
    nothing but the warning of an adaptive feature of the first result
    whose first values are 0-D. *)
Theorem results_to_data_logs_only_0d_warnings {L : Type} `{EqDecision L}
    (lengths : pyval → L) (self : RunModel) (results : list Evaluation) :
  Forall (λ ev, ∃ g r0 v0,
            ev = LogWarning (g +:+ " "
                             +:+ "gives a 0D result. No interpolation performed")
            ∧ first_result results = Ok r0 ∧ g ∈ r0.*1
            ∧ is_adaptive self g = true
            ∧ get_values r0 g = Ok v0 ∧ ndim v0 = 0)
    (trace (results_to_data lengths self results)).
Proof.
  destruct (first_result results) as [r0|e] eqn:Hr0.
  2:{ unfold results_to_data. rewrite Hr0. constructor. }
  rewrite (results_to_data_checked lengths self results r0 Hr0).
  destruct (check_regularity lengths self results (register_features self r0));
    [|constructor].
  unfold store_results.
  assert (∀ fs acc,
            (∀ g, g ∈ fs → g ∈ r0.*1) →
            Forall (λ ev, ∃ g r0' v0,
                      ev = LogWarning (warning_0d_msg g)
                      ∧ Ok r0 = Ok r0' ∧ g ∈ r0'.*1
                      ∧ is_adaptive self g = true
                      ∧ get_values r0' g = Ok v0 ∧ ndim v0 = 0)
              (trace (for_M (store_feature self results) fs acc))) as Hloop.
  { induction fs as [|f fs IH]; intros acc Hkeys; simpl; [constructor|].
    rewrite M_bind_trace. apply Forall_app. split.
    - destruct (store_feature_trace self results acc f)
        as [->|(-> & Hadaptive & r0' & v0 & Hr0' & Hv0 & Hndim)]; [constructor|].
      rewrite Hr0 in Hr0'. injection Hr0' as <-.
      repeat constructor. exists f, r0, v0. repeat split; try assumption.
      apply Hkeys. left.
    - destruct (outcome (store_feature self results acc f)); [|constructor].
      apply IH. intros g Hg. apply Hkeys. right. exact Hg. }
  apply Hloop. intros g Hg.
  apply (proj1 (register_features_keys self r0 g)). exact Hg.
Qed.

(** ** evaluate_nodes: the pool, the display and errors *)

Lemma not_elem_of_workers (ev : event) (order : list nat) :
  (∀ i, ev ≠ WorkerDone i) → ev ∉ WorkerDone <$> order.
Proof.
  intros Hev (i & -> & _)%list_elem_of_fmap. exact (Hev i eq_refl).
Qed.

Lemma evaluate_nodes_binder_error_free (prerequisites : bool) (sched : list nat)
    (self : RunModel) (nodes : ndarray) (names : list string) (e : exn) :
  (model_suppress_graphics (model self) = true → prerequisites = true) →
  create_model_parameters self nodes names = Err e →
  evaluate_nodes prerequisites sched self nodes names
  = Run ((if model_suppress_graphics (model self) then [XvfbStart] else [])
         ++ [PoolOpen (CPUs self)])
        (Err e).
Proof.
  intros Hdisplay Hsets. unfold evaluate_nodes. rewrite Hsets.
  destruct (model_suppress_graphics (model self)).
  - rewrite Hdisplay by reflexivity. reflexivity.
  - reflexivity.
Qed.






(** X15: a model that does not suppress graphics never touches the
    display: [evaluate_nodes] does not depend on [xvfbwrapper] being there,
    it opens the pool first, and no display event occurs. *)
Theorem evaluate_nodes_without_display (prerequisites : bool)
    (sched : list nat) (self : RunModel) (nodes : ndarray)
    (names : list string) :
  model_suppress_graphics (model self) = false →
  evaluate_nodes prerequisites sched self nodes names
  = evaluate_nodes (negb prerequisites) sched self nodes names
  ∧ (∃ tr, trace (evaluate_nodes prerequisites sched self nodes names)
           = PoolOpen (CPUs self) :: tr)
  ∧ (XvfbStart ∉ trace (evaluate_nodes prerequisites sched self nodes names))
  ∧ (XvfbStop ∉ trace (evaluate_nodes prerequisites sched self nodes names)).
Proof.
  intros Hplain.
  assert (∀ p, model_suppress_graphics (model self) = true → p = true) as Hany
    by (intros p; rewrite Hplain; discriminate).
  destruct (create_model_parameters self nodes names) as [sets|e] eqn:Hsets.
  - rewrite !(evaluate_nodes_dispatch _ sched self nodes names sets (Hany _) Hsets).
    rewrite Hplain. simpl. split; [reflexivity|]. split; [eexists; reflexivity|].
    split; intros [[=]|Hin]%elem_of_cons;
      apply elem_of_app in Hin as [Hin|Hin];
      try (revert Hin; apply not_elem_of_workers; discriminate);
      destruct (map_res (parallel_run self) sets);
      repeat (apply elem_of_cons in Hin as [[=]|Hin]);
      apply elem_of_nil in Hin; contradiction.
  - rewrite !(evaluate_nodes_binder_error_free _ sched self nodes names e (Hany _) Hsets).
    rewrite Hplain. simpl. split; [reflexivity|]. split; [eexists; reflexivity|].
    split; intros [[=]|Hin%elem_of_nil]%elem_of_cons; exact Hin.
Qed.

Lemma evaluate_nodes_without_display_witness :
  evaluate_nodes true [] spec_example (Array2 1 [[1]; [2]]%Z) ["a"; "b"]
  = evaluate_nodes false [] spec_example (Array2 1 [[1]; [2]]%Z) ["a"; "b"].
Proof.
  apply (evaluate_nodes_without_display true [] spec_example
           (Array2 1 [[1]; [2]]%Z) ["a"; "b"]).
  reflexivity.
Defined.

(** ** run *)





(** ** regularize_nan_results *)

Example regularize_nan_results_shapes :
  snd (regularize_nan_results results_nan_shapes)
  = Ok results_nan_shapes_regular.
Proof. vm_compute. reflexivity. Qed.

Lemma dict_alter_keys {V} (f : V → V) (k : string) (d : list (string * V)) :
  (dict_alter f k d).*1 = d.*1.
Proof.
  induction d as [|[k' v] d IH]; simpl; [reflexivity|].
  destruct (decide (k' = k)); [reflexivity|].
  change ((k', v) :: dict_alter f k d).*1 with (k' :: (dict_alter f k d).*1).
  rewrite IH. reflexivity.
Qed.

Lemma dict_get_alter {V} (f : V → V) (k h : string) (d : list (string * V)) :
  dict_get h (dict_alter f k d)
  = if decide (h = k) then f <$> dict_get h d else dict_get h d.
Proof.
  induction d as [|[k' v] d IH]; simpl; [destruct (decide (h = k)); reflexivity|].
  destruct (decide (k' = k)) as [->|Hne]; simpl.
  - destruct (decide (k = h)) as [->|Hkh].
    + rewrite decide_True by reflexivity. reflexivity.
    + rewrite decide_False by congruence. reflexivity.
  - destruct (decide (k' = h)) as [->|Hkh].
    + rewrite decide_False by congruence. reflexivity.
    + exact IH.
Qed.

Lemma get_data_set (k k' : data_key) (g h : string) (v : pyval)
    (r : Evaluation) :
  get_data k' (dict_alter (set_data k v) g r) h
  = if decide (h = g ∧ k' = k)
    then (_ ← getitem r g; Ok v)
    else get_data k' r h.
Proof.
  destruct k, k'; simpl; unfold get_values, get_time, getitem;
    rewrite dict_get_alter; destruct (decide (h = g)) as [->|Hne];
    try (rewrite decide_False by tauto; reflexivity);
    try (rewrite decide_False by (intros [_ [=]]));
    try (rewrite decide_True by tauto);
    destruct (dict_get g r); reflexivity.
Qed.

Lemma get_interpolation_set (k : data_key) (g h : string) (v : pyval)
    (r : Evaluation) :
  get_interpolation (dict_alter (set_data k v) g r) h = get_interpolation r h.
Proof.
  unfold get_interpolation, getitem. rewrite dict_get_alter.
  destruct (decide (h = g)) as [->|Hne]; [|reflexivity].
  destruct (dict_get g r); destruct k; reflexivity.
Qed.

Lemma shape_np_full_nan_Some (s : list nat) : is_Some (shape (np_full_nan s)).
Proof.
  induction s as [|n s [sx IH]]; simpl; [eexists; reflexivity|].
  rewrite fmap_replicate, IH. destruct n as [|n]; simpl; [eexists; reflexivity|].
  assert (forallb (λ o, bool_decide (o = Some sx)) (replicate n (Some sx)) = true)
    as ->; [|eexists; reflexivity].
  apply forallb_forall. intros o Ho%list_elem_of_In%elem_of_replicate_inv.
  apply bool_decide_eq_true. exact Ho.
Qed.

(** [np.full] gives back a shape that [np.shape] has read off a value. *)
Lemma shape_np_full_nan (v : pyval) :
  ∀ s, shape v = Some s → shape (np_full_nan s) = Some s.
Proof.
  induction v as [| | |items IH] using pyval_ind; simpl;
    try (intros s [= <-]; reflexivity).
  intros s. destruct items as [|x rest]; simpl; [intros [= <-]; reflexivity|].
  destruct (shape x) as [sx|] eqn:Hx; [|discriminate].
  destruct (forallb _ _); [|discriminate]. intros [= <-].
  apply Forall_cons_1 in IH as [IHx _]. specialize (IHx sx Hx).
  simpl. rewrite IHx, fmap_replicate, IHx.
  assert (forallb (λ o, bool_decide (o = Some sx))
            (replicate (length rest) (Some sx)) = true) as ->.
  { apply forallb_forall. intros o Ho%list_elem_of_In%elem_of_replicate_inv.
    apply bool_decide_eq_true. exact Ho. }
  rewrite length_replicate. reflexivity.
Qed.

Lemma leaves_np_full_nan (s : list nat) :
  Forall (λ x, x = PyNan) (leaves (np_full_nan s)).
Proof.
  induction s as [|n s IH]; simpl; [repeat constructor|].
  rewrite fmap_replicate. induction n as [|n IHn]; simpl; [constructor|].
  apply Forall_app. split; assumption.
Qed.

Lemma np_all_isnan_full (s : list nat) : np_all_isnan (np_full_nan s) = Ok true.
Proof.
  unfold np_all_isnan. destruct (shape_np_full_nan_Some s) as [s' ->].
  pose proof (leaves_np_full_nan s) as Hleaves.
  assert (existsb is_None (leaves (np_full_nan s)) = false) as ->.
  { induction Hleaves as [|x l -> _ IH]; simpl; [reflexivity|exact IH]. }
  f_equal. induction Hleaves as [|x l -> _ IH]; simpl; [reflexivity|exact IH].
Qed.

Lemma np_all_isnan_shape (v : pyval) (b : bool) :
  np_all_isnan v = Ok b → ∃ s, shape v = Some s.
Proof.
  unfold np_all_isnan. destruct (shape v) as [s|]; [eauto|discriminate].
Qed.

(** The three ways one turn of the second loop can end. *)
Lemma regularize_entry_inv (k : data_key) (g : string) (s : list nat)
    (r r' : Evaluation) :
  regularize_entry k g s r = Ok r' →
  ∃ v sv, get_data k r g = Ok v ∧ shape v = Some sv
    ∧ ((np_all_isnan v = Ok false ∧ r' = r)
       ∨ (np_all_isnan v = Ok true ∧ sv = s ∧ r' = r)
       ∨ (np_all_isnan v = Ok true ∧ sv ≠ s
          ∧ r' = dict_alter (set_data k (np_full_nan s)) g r)).
Proof.
  unfold regularize_entry. intros (v & Hv & Hrest)%bind_Ok.
  apply bind_Ok in Hrest as (b & Hb & Hrest).
  destruct (np_all_isnan_shape _ _ Hb) as [sv Hsv].
  exists v, sv. split; [exact Hv|]. split; [exact Hsv|].
  destruct b.
  - unfold np_shape in Hrest. rewrite Hsv in Hrest. simpl in Hrest.
    destruct (decide (sv = s)) as [Heq|Hne].
    + rewrite bool_decide_eq_false_2 in Hrest by (intros Hn; exact (Hn Heq)).
      injection Hrest as <-. right; left. auto.
    + rewrite bool_decide_eq_true_2 in Hrest by exact Hne.
      injection Hrest as <-. right; right. auto.
  - injection Hrest as <-. left. auto.
Qed.

Lemma regularize_entry_Ok (k : data_key) (g : string) (s : list nat)
    (r : Evaluation) :
  readable k g r → ∃ r', regularize_entry k g s r = Ok r'.
Proof.
  intros (v & b & Hv & Hb). unfold regularize_entry. rewrite Hv. simpl.
  rewrite Hb. simpl. destruct b; [|eauto].
  destruct (np_all_isnan_shape _ _ Hb) as [sv Hsv].
  unfold np_shape. rewrite Hsv. simpl. case_bool_decide; eauto.
Qed.

Lemma get_data_replaced (k : data_key) (g : string) (v w : pyval)
    (r : Evaluation) :
  get_data k r g = Ok v →
  get_data k (dict_alter (set_data k w) g r) g = Ok w.
Proof.
  intros Hv. rewrite get_data_set. rewrite decide_True by auto.
  destruct (getitem r g) as [env|e] eqn:Hg; [reflexivity|].
  destruct k; simpl in Hv; unfold get_values, get_time in Hv;
    rewrite Hg in Hv; discriminate.
Qed.

Lemma get_data_frame (k k' : data_key) (g g' : string) (w : pyval)
    (r : Evaluation) :
  g ≠ g' ∨ k ≠ k' →
  get_data k (dict_alter (set_data k' w) g' r) g = get_data k r g.
Proof.
  intros Hne. rewrite get_data_set. apply decide_False. tauto.
Qed.

Lemma regularized_refl (r : Evaluation) : regularized r r.
Proof. split; [reflexivity|]. intros g. split; [reflexivity|]. intros k. left. reflexivity. Qed.

Lemma regularized_trans (r1 r2 r3 : Evaluation) :
  regularized r1 r2 → regularized r2 r3 → regularized r1 r3.
Proof.
  intros [Hk12 H12] [Hk23 H23]. split; [congruence|]. intros g.
  destruct (H12 g) as [Hi12 Hd12], (H23 g) as [Hi23 Hd23].
  split; [congruence|]. intros k.
  destruct (Hd12 k) as [Heq12|[Hn1 Hn2]], (Hd23 k) as [Heq23|[Hn2' Hn3]].
  - left. congruence.
  - right. split; [|exact Hn3].
    destruct Hn2' as (v & Hv & Hnan). exists v. split; [congruence|exact Hnan].
  - right. split; [exact Hn1|].
    destruct Hn2 as (v & Hv & Hnan). exists v. split; [congruence|exact Hnan].
  - right. split; assumption.
Qed.

Lemma regularize_entry_regularized (k : data_key) (g : string) (s : list nat)
    (r r' : Evaluation) :
  regularize_entry k g s r = Ok r' → regularized r r'.
Proof.
  intros (v & sv & Hv & _ & [[_ ->]|[(_ & _ & ->)|(Hnan & _ & ->)]])%regularize_entry_inv;
    try apply regularized_refl.
  split; [apply dict_alter_keys|]. intros h.
  split; [apply get_interpolation_set|]. intros k'.
  destruct (decide (h = g ∧ k' = k)) as [[-> ->]|Hne].
  - right. split; [exists v; auto|].
    exists (np_full_nan s). split; [eapply get_data_replaced; eassumption|].
    apply np_all_isnan_full.
  - left. apply get_data_frame.
    destruct (decide (h = g)) as [->|]; [right|left; assumption].
    intros ->. apply Hne. auto.
Qed.

Lemma Forall2_regularized_trans (xs ys zs : list Evaluation) :
  Forall2 regularized xs ys → Forall2 regularized ys zs →
  Forall2 regularized xs zs.
Proof.
  intros H12 H23. eapply Forall2_trans; [|exact H12|exact H23].
  intros x y z. apply regularized_trans.
Qed.

Lemma regularize_feature_entries (k : data_key) (g : string)
    (results results' : list Evaluation) :
  regularize_feature k results g = Ok results' →
  ∃ r0 v0 s0 s,
    first_result results = Ok r0 ∧ get_data k r0 g = Ok v0
    ∧ shape v0 = Some s0
    ∧ first_valid_shape k g results s0 = Ok s
    ∧ Forall2 (λ r r', regularize_entry k g s r = Ok r') results results'.
Proof.
  unfold regularize_feature. intros (r0 & Hr0 & Hrest)%bind_Ok.
  apply bind_Ok in Hrest as (v0 & Hv0 & Hrest).
  apply bind_Ok in Hrest as (s0 & Hs0 & Hrest).
  apply bind_Ok in Hrest as (s & Hs & Hmap).
  exists r0, v0, s0, s. repeat split; try assumption.
  - unfold np_shape in Hs0. destruct (shape v0); [congruence|discriminate].
  - apply map_res_Ok. exact Hmap.
Qed.

Lemma regularize_feature_regularized (k : data_key) (g : string)
    (results results' : list Evaluation) :
  regularize_feature k results g = Ok results' →
  Forall2 regularized results results'.
Proof.
  intros (r0 & v0 & s0 & s & _ & _ & _ & _ & Hall)%regularize_feature_entries.
  eapply Forall2_impl; [exact Hall|]. intros r r'.
  apply regularize_entry_regularized.
Qed.

Lemma for_res_regularized (k : data_key) (fs : list string) :
  ∀ results results',
    for_res (regularize_feature k) fs results = Ok results' →
    Forall2 regularized results results'.
Proof.
  induction fs as [|f fs IH]; intros results results'; simpl.
  - intros [= <-]. apply Forall_Forall2_diag, Forall_forall.
    intros r _. apply regularized_refl.
  - intros (mid & Hmid & Hrest)%bind_Ok.
    eapply Forall2_regularized_trans;
      [eapply regularize_feature_regularized; exact Hmid|apply IH; exact Hrest].
Qed.

Lemma regularize_regularized (k : data_key)
    (results results' : list Evaluation) :
  regularize results k = Ok results' → Forall2 regularized results results'.
Proof.
  unfold regularize. intros (r0 & _ & Hloop)%bind_Ok.
  eapply for_res_regularized. exact Hloop.
Qed.

Lemma first_valid_shape_spec (k : data_key) (g : string)
    (results : list Evaluation) (s0 s : list nat) :
  first_valid_shape k g results s0 = Ok s →
  (∃ pre r post v,
      results = pre ++ r :: post ∧ Forall (only_nan k g) pre
      ∧ get_data k r g = Ok v ∧ np_all_isnan v = Ok false
      ∧ shape v = Some s)
  ∨ (Forall (only_nan k g) results ∧ s = s0).
Proof.
  induction results as [|r results IH]; simpl.
  - intros [= <-]. right. split; [constructor|reflexivity].
  - intros (v & Hv & Hrest)%bind_Ok.
    apply bind_Ok in Hrest as (b & Hb & Hrest).
    destruct b; simpl in Hrest.
    + destruct (IH Hrest)
        as [(pre & r1 & post & v1 & -> & Hpre & Hv1 & Hb1 & Hs1)|[Hall ->]].
      * left. exists (r :: pre), r1, post, v1.
        repeat split; try assumption.
        constructor; [exists v; auto|assumption].
      * right. split; [|reflexivity].
        constructor; [exists v; auto|assumption].
    + left. exists [], r, results, v.
      repeat split; try assumption; [constructor|].
      unfold np_shape in Hrest. destruct (shape v); [congruence|discriminate].
Qed.

Lemma first_valid_shape_Ok (k : data_key) (g : string)
    (results : list Evaluation) (s0 : list nat) :
  Forall (readable k g) results →
  ∃ s, first_valid_shape k g results s0 = Ok s.
Proof.
  induction 1 as [|r results (v & b & Hv & Hb) _ IH]; simpl; [eauto|].
  rewrite Hv. simpl. rewrite Hb. simpl. destruct b; simpl; [exact IH|].
  destruct (np_all_isnan_shape _ _ Hb) as [sv Hsv].
  unfold np_shape. rewrite Hsv. eauto.
Qed.

Lemma first_split_unique {A} (P : A → Prop) (pre : list A) :
  ∀ r post pre' r' post',
    pre ++ r :: post = pre' ++ r' :: post' →
    Forall P pre → ¬ P r → Forall P pre' → ¬ P r' →
    pre = pre' ∧ r = r'.
Proof.
  induction pre as [|x pre IH]; intros r post [|x' pre'] r' post'; simpl;
    intros Heq Hpre Hr Hpre' Hr'; injection Heq as Hhead Htail.
  - auto.
  - subst x'. apply Forall_cons_1 in Hpre' as [Hx _]. contradiction.
  - subst x. apply Forall_cons_1 in Hpre as [Hx _]. contradiction.
  - apply Forall_cons_1 in Hpre as [_ Hpre].
    apply Forall_cons_1 in Hpre' as [_ Hpre'].
    destruct (IH _ _ _ _ _ Htail Hpre Hr Hpre' Hr') as [-> ->].
    subst x'. auto.
Qed.

Lemma not_only_nan (k : data_key) (g : string) (r : Evaluation) (v : pyval) :
  get_data k r g = Ok v → np_all_isnan v = Ok false → ¬ only_nan k g r.
Proof. intros Hv Hb (w & Hw & Hnan). congruence. Qed.

Lemma regularize_entry_only_nan (k : data_key) (g : string) (s : list nat)
    (r r' : Evaluation) :
  regularize_entry k g s r = Ok r' → only_nan k g r' → only_nan k g r.
Proof.
  intros (v & sv & Hv & _ & [[_ ->]|[(_ & _ & ->)|(Hnan & _ & ->)]])%regularize_entry_inv;
    try (intros Hr; exact Hr).
  intros _. exists v. auto.
Qed.

Lemma regularize_entry_valid (k : data_key) (g : string) (s : list nat)
    (r r' : Evaluation) (v' : pyval) :
  regularize_entry k g s r = Ok r' →
  get_data k r' g = Ok v' → np_all_isnan v' = Ok false →
  get_data k r g = Ok v'.
Proof.
  intros (v & sv & Hv & _ & [[_ ->]|[(_ & _ & ->)|(Hnan & _ & ->)]])%regularize_entry_inv;
    try (intros Hr _; exact Hr).
  rewrite (get_data_replaced _ _ _ _ _ Hv). intros [= <-].
  rewrite np_all_isnan_full. discriminate.
Qed.

Lemma regularize_entry_shape (k : data_key) (g : string) (s : list nat)
    (r r' : Evaluation) (v' : pyval) :
  regularize_entry k g s r = Ok r' → shape (np_full_nan s) = Some s →
  get_data k r' g = Ok v' → np_all_isnan v' = Ok true → shape v' = Some s.
Proof.
  intros (v & sv & Hv & Hsv & [[Hb ->]|[(_ & -> & ->)|(Hnan & _ & ->)]])%regularize_entry_inv
    Hfull.
  - intros Hv' Hnan. congruence.
  - intros Hv' _. congruence.
  - rewrite (get_data_replaced _ _ _ _ _ Hv). intros [= <-] _. exact Hfull.
Qed.

Lemma regularize_entry_frame (k k' : data_key) (g g' : string) (s : list nat)
    (r r' : Evaluation) :
  regularize_entry k' g' s r = Ok r' → g ≠ g' ∨ k ≠ k' →
  get_data k r' g = get_data k r g.
Proof.
  intros (v & sv & _ & _ & [[_ ->]|[(_ & _ & ->)|(_ & _ & ->)]])%regularize_entry_inv
    Hne; try reflexivity.
  apply get_data_frame. exact Hne.
Qed.

(** After the turn for a feature, its entries are uniform. *)
Lemma regularize_feature_uniform (k : data_key) (g : string)
    (results results' : list Evaluation) :
  regularize_feature k results g = Ok results' →
  ∃ s, uniform k g s results'.
Proof.
  intros (r0 & v0 & s0 & s & Hr0 & Hv0 & Hs0 & Hs & Hall)%regularize_feature_entries.
  exists s. pose proof (first_valid_shape_spec _ _ _ _ _ Hs) as Hfirst.
  assert (shape (np_full_nan s) = Some s) as Hfull.
  { destruct Hfirst as [(_ & _ & _ & v & _ & _ & _ & _ & Hv)|[_ ->]];
      eapply shape_np_full_nan; eassumption. }
  split.
  - intros r' v' [i Hi]%list_elem_of_lookup_1 Hv' Hnan.
    destruct (Forall2_lookup_r _ _ _ _ _ Hall Hi) as (r & _ & Hentry).
    eapply regularize_entry_shape; eassumption.
  - intros pre' r' post' v' -> Hpre' Hv' Hb'.
    apply Forall2_app_inv_r in Hall as (pre & rest & Hpre & Hrest & ->).
    apply Forall2_cons_inv_r in Hrest as (r & post & Hentry & _ & ->).
    assert (Forall (only_nan k g) pre) as Hpre_nan.
    { clear -Hpre Hpre'. induction Hpre as [|p p' pre pre' Hp _ IH];
        [constructor|].
      apply Forall_cons_1 in Hpre' as [Hp' Hpre']. constructor.
      - eapply regularize_entry_only_nan; eassumption.
      - apply IH. exact Hpre'. }
    pose proof (regularize_entry_valid _ _ _ _ _ _ Hentry Hv' Hb') as Hv.
    pose proof (not_only_nan _ _ _ _ Hv Hb') as Hr.
    destruct Hfirst
      as [(pre1 & r1 & post1 & v1 & Heq & Hpre1 & Hv1 & Hb1 & Hs1)|[Hnan _]].
    + destruct (first_split_unique _ _ _ _ _ _ _ Heq Hpre_nan Hr Hpre1
                  (not_only_nan _ _ _ _ Hv1 Hb1)) as [_ ->].
      congruence.
    + apply Forall_app in Hnan as [_ Hnan].
      apply Forall_cons_1 in Hnan as [Hnan _]. contradiction.
Qed.

Lemma regularize_feature_frame (k k' : data_key) (g g' : string)
    (results results' : list Evaluation) :
  regularize_feature k' results g' = Ok results' → g ≠ g' ∨ k ≠ k' →
  Forall2 (λ r r', get_data k r' g = get_data k r g) results results'.
Proof.
  intros (r0 & v0 & s0 & s & _ & _ & _ & _ & Hall)%regularize_feature_entries
    Hne.
  refine (Forall2_impl _ _ _ _ Hall _). intros r r' Hentry.
  eapply regularize_entry_frame; eassumption.
Qed.

Lemma for_res_frame (k k' : data_key) (g : string) (fs : list string) :
  ∀ results results',
    for_res (regularize_feature k') fs results = Ok results' →
    (g ∉ fs) ∨ k ≠ k' →
    Forall2 (λ r r', get_data k r' g = get_data k r g) results results'.
Proof.
  induction fs as [|f fs IH]; intros results results'; simpl.
  - intros [= <-] _. apply Forall_Forall2_diag, Forall_forall. reflexivity.
  - intros (mid & Hmid & Hrest)%bind_Ok Hne.
    eapply Forall2_trans;
      [|eapply (regularize_feature_frame k k' g f); [exact Hmid|]
       |apply IH; [exact Hrest|]].
    + intros x y z Hxy Hyz. simpl in *. congruence.
    + destruct Hne as [Hne|Hne]; [left|right; exact Hne].
      intros ->. apply Hne. left.
    + destruct Hne as [Hne|Hne]; [left|right; exact Hne].
      intros Hin. apply Hne. right. exact Hin.
Qed.

(** Uniformity is a property of the entries read. *)
Lemma uniform_ext (k : data_key) (g : string) (s : list nat)
    (results results' : list Evaluation) :
  Forall2 (λ r r', get_data k r' g = get_data k r g) results results' →
  uniform k g s results → uniform k g s results'.
Proof.
  intros Hall [Hnan Hfirst]. split.
  - intros r' v' [i Hi]%list_elem_of_lookup_1 Hv' Hb'.
    destruct (Forall2_lookup_r _ _ _ _ _ Hall Hi) as (r & Hr & Heq).
    apply (Hnan r v'); [eapply list_elem_of_lookup_2; exact Hr|congruence|exact Hb'].
  - intros pre' r' post' v' -> Hpre' Hv' Hb'.
    apply Forall2_app_inv_r in Hall as (pre & rest & Hpre & Hrest & ->).
    apply Forall2_cons_inv_r in Hrest as (r & post & Heq & _ & ->).
    apply (Hfirst pre r post v'); [reflexivity| |congruence|exact Hb'].
    clear -Hpre Hpre'. induction Hpre as [|p p' pre pre' Hp _ IH];
      [constructor|].
    apply Forall_cons_1 in Hpre' as [(w & Hw & Hwnan) Hpre']. constructor.
    + exists w. split; [congruence|exact Hwnan].
    + apply IH. exact Hpre'.
Qed.

(** One pass leaves every feature it went through uniform. *)
Lemma for_res_uniform (k : data_key) (fs : list string) :
  ∀ results results',
    for_res (regularize_feature k) fs results = Ok results' →
    ∀ g, g ∈ fs → ∃ s, uniform k g s results'.
Proof.
  induction fs as [|f fs IH]; intros results results'; simpl.
  - intros _ g Hg. inversion Hg.
  - intros (mid & Hmid & Hrest)%bind_Ok g Hg.
    destruct (decide (g ∈ fs)) as [Hin|Hnotin]; [eapply IH; eassumption|].
    apply elem_of_cons in Hg as [->|Hin]; [|contradiction].
    destruct (regularize_feature_uniform _ _ _ _ Hmid) as [s Hs].
    exists s. eapply uniform_ext; [|exact Hs].
    eapply for_res_frame; [exact Hrest|left; exact Hnotin].
Qed.

Lemma Forall2_regularized_head (results results' : list Evaluation)
    (r0 : Evaluation) :
  Forall2 regularized results results' → first_result results = Ok r0 →
  ∃ r0', first_result results' = Ok r0' ∧ r0'.*1 = r0.*1.
Proof.
  destruct 1 as [|r r' rs rs' [Hkeys _] _]; simpl; [discriminate|].
  intros [= <-]. eauto.
Qed.

Lemma regularize_uniform (k : data_key) (results results' : list Evaluation)
    (r0 : Evaluation) (g : string) :
  regularize results k = Ok results' → first_result results = Ok r0 →
  g ∈ r0.*1 → ∃ s, uniform k g s results'.
Proof.
  unfold regularize. intros (r & Hr & Hloop)%bind_Ok Hr0 Hg.
  rewrite Hr0 in Hr. injection Hr as <-.
  eapply for_res_uniform; eassumption.
Qed.

Lemma regularize_frame (k k' : data_key) (g : string)
    (results results' : list Evaluation) :
  regularize results k' = Ok results' → k ≠ k' →
  Forall2 (λ r r', get_data k r' g = get_data k r g) results results'.
Proof.
  unfold regularize. intros (r & _ & Hloop)%bind_Ok Hne.
  eapply for_res_frame; [exact Hloop|right; exact Hne].
Qed.

(** The pass over the values, then the pass over the times, leave both
    uniform. *)
Lemma two_passes_uniform (results mid results' : list Evaluation)
    (r0 : Evaluation) (g : string) (k : data_key) :
  regularize results Values = Ok mid → regularize mid Time = Ok results' →
  first_result results = Ok r0 → g ∈ r0.*1 →
  ∃ s, uniform k g s results'.
Proof.
  intros Hmid Hres Hr0 Hg. destruct k.
  - destruct (regularize_uniform _ _ _ _ _ Hmid Hr0 Hg) as [s Hs].
    exists s. eapply uniform_ext; [|exact Hs].
    eapply regularize_frame; [exact Hres|discriminate].
  - destruct (Forall2_regularized_head _ _ _ (regularize_regularized _ _ _ Hmid) Hr0)
      as (r0' & Hr0' & Hkeys).
    eapply regularize_uniform; [exact Hres|exact Hr0'|].
    rewrite Hkeys. exact Hg.
Qed.

Lemma regularized_readable (k : data_key) (g : string) (r r' : Evaluation) :
  regularized r r' → readable k g r ↔ readable k g r'.
Proof.
  intros [_ Hall]. destruct (Hall g) as [_ Hdata].
  destruct (Hdata k) as [Heq|[(v & Hv & Hnan) (v' & Hv' & Hnan')]].
  - split; intros (w & b & Hw & Hb); exists w, b; split; congruence.
  - split; intros _; [exists v', true|exists v, true]; auto.
Qed.

Lemma Forall2_regularized_readable (k : data_key) (g : string)
    (results results' : list Evaluation) :
  Forall2 regularized results results' →
  Forall (readable k g) results ↔ Forall (readable k g) results'.
Proof.
  induction 1 as [|r r' rs rs' Hr _ IH]; [reflexivity|].
  rewrite !Forall_cons, IH, (regularized_readable k g r r' Hr). reflexivity.
Qed.

Lemma regularize_feature_readable (k : data_key) (g : string)
    (results results' : list Evaluation) :
  regularize_feature k results g = Ok results' →
  Forall (readable k g) results.
Proof.
  intros (r0 & v0 & s0 & s & _ & _ & _ & _ & Hall)%regularize_feature_entries.
  induction Hall as [|r r' rs rs' Hr _ IH]; constructor; [|exact IH].
  apply regularize_entry_inv in Hr
    as (v & sv & Hv & _ & [[Hb _]|[(Hb & _)|(Hb & _)]]);
    exists v; eauto.
Qed.

Lemma regularize_feature_Ok (k : data_key) (g : string)
    (results : list Evaluation) :
  results ≠ [] → Forall (readable k g) results →
  ∃ results', regularize_feature k results g = Ok results'.
Proof.
  destruct results as [|r0 rest]; [congruence|]. intros _ Hall.
  pose proof Hall as Hhead.
  apply Forall_cons_1 in Hhead as [(v0 & b0 & Hv0 & Hb0) _].
  destruct (np_all_isnan_shape _ _ Hb0) as [s0 Hs0].
  destruct (first_valid_shape_Ok k g (r0 :: rest) s0 Hall) as [s Hs].
  destruct (map_res_total (regularize_entry k g s) (r0 :: rest)) as [ys Hys].
  { eapply Forall_impl; [exact Hall|]. intros r Hr.
    apply regularize_entry_Ok. exact Hr. }
  exists ys. unfold regularize_feature.
  change (first_result (r0 :: rest)) with (Ok r0).
  rewrite ret_bind, Hv0, ret_bind. unfold np_shape.
  rewrite Hs0, ret_bind, Hs, ret_bind. exact Hys.
Qed.

Lemma Forall2_regularized_nonempty (results results' : list Evaluation) :
  Forall2 regularized results results' → results ≠ [] → results' ≠ [].
Proof. destruct 1; [congruence|discriminate]. Qed.

(** One pass returns iff every entry it reads can be read. *)
Lemma for_res_regularize_Ok (k : data_key) (fs : list string) :
  ∀ results,
    results ≠ [] →
    (∃ results', for_res (regularize_feature k) fs results = Ok results')
    ↔ ∀ g, g ∈ fs → Forall (readable k g) results.
Proof.
  induction fs as [|f fs IH]; intros results Hne; simpl.
  - split; [intros _ g Hg; inversion Hg|eauto].
  - split.
    + intros (results' & (mid & Hmid & Hrest)%bind_Ok) g Hg.
      pose proof (regularize_feature_regularized _ _ _ _ Hmid) as Hreg.
      apply elem_of_cons in Hg as [->|Hg].
      * eapply regularize_feature_readable. exact Hmid.
      * apply (Forall2_regularized_readable k g _ _ Hreg).
        apply (IH mid); [eapply Forall2_regularized_nonempty; eassumption
                        |eauto|exact Hg].
    + intros Hall.
      destruct (regularize_feature_Ok k f results Hne) as [mid Hmid];
        [apply Hall; left|].
      pose proof (regularize_feature_regularized _ _ _ _ Hmid) as Hreg.
      rewrite Hmid, ret_bind. apply IH.
      * eapply Forall2_regularized_nonempty; eassumption.
      * intros g Hg. apply (Forall2_regularized_readable k g _ _ Hreg).
        apply Hall. right. exact Hg.
Qed.

Lemma regularize_Ok (k : data_key) (results : list Evaluation) :
  (∃ results', regularize results k = Ok results')
  ↔ ∃ r0, first_result results = Ok r0
          ∧ ∀ g, g ∈ r0.*1 → Forall (readable k g) results.
Proof.
  unfold regularize. destruct results as [|r0 rest]; simpl.
  - split; [intros [? [=]]|intros (? & [=] & _)].
  - rewrite (for_res_regularize_Ok k r0.*1 (r0 :: rest)) by discriminate.
    split; [eauto|]. intros (r & [= <-] & Hall). exact Hall.
Qed.

Lemma two_passes_Ok (results : list Evaluation) :
  (∃ mid results',
      regularize results Values = Ok mid ∧ regularize mid Time = Ok results')
  ↔ well_formed results.
Proof.
  split.
  - intros (mid & results' & Hmid & Hres).
    pose proof (regularize_regularized _ _ _ Hmid) as Hreg.
    destruct (proj1 (regularize_Ok Values results) (ex_intro _ _ Hmid))
      as (r0 & Hr0 & Hvalues).
    destruct (proj1 (regularize_Ok Time mid) (ex_intro _ _ Hres))
      as (r0' & Hr0' & Htime).
    destruct (Forall2_regularized_head _ _ _ Hreg Hr0) as (r0'' & Hr0'' & Hkeys).
    rewrite Hr0' in Hr0''. injection Hr0'' as <-.
    exists r0. split; [exact Hr0|]. intros g r k Hg Hr.
    destruct k.
    + eapply Forall_forall; [apply Hvalues; exact Hg|exact Hr].
    + eapply Forall_forall; [|exact Hr].
      apply (Forall2_regularized_readable Time g _ _ Hreg).
      apply Htime. rewrite Hkeys. exact Hg.
  - intros (r0 & Hr0 & Hall).
    destruct (proj2 (regularize_Ok Values results)) as [mid Hmid].
    { exists r0. split; [exact Hr0|]. intros g Hg.
      apply Forall_forall. intros r Hr. apply Hall; assumption. }
    pose proof (regularize_regularized _ _ _ Hmid) as Hreg.
    destruct (Forall2_regularized_head _ _ _ Hreg Hr0) as (r0' & Hr0' & Hkeys).
    destruct (proj2 (regularize_Ok Time mid)) as [results' Hres].
    { exists r0'. split; [exact Hr0'|]. intros g Hg.
      apply (Forall2_regularized_readable Time g _ _ Hreg).
      apply Forall_forall. intros r Hr. apply Hall; [|exact Hr].
      rewrite <- Hkeys. exact Hg. }
    eauto.
Qed.

Lemma Forall2_fixed {A} (P : A → A → Prop) (xs ys : list A) :
  Forall2 P xs ys → (∀ x y, x ∈ xs → P x y → y = x) → ys = xs.
Proof.
  induction 1 as [|x y xs ys Hxy _ IH]; intros Hfix; [reflexivity|].
  rewrite (Hfix x y) by (assumption || left).
  rewrite IH; [reflexivity|]. intros x' y' Hx'. apply Hfix. right. exact Hx'.
Qed.

(** The turn for a feature that is uniform already changes nothing. *)
Lemma regularize_feature_fixed (k : data_key) (g : string) (s : list nat)
    (results results' : list Evaluation) :
  uniform k g s results → regularize_feature k results g = Ok results' →
  results' = results.
Proof.
  intros [Hnan Hfirst]
    (r0 & v0 & s0 & s' & Hr0 & Hv0 & Hs0 & Hs' & Hall)%regularize_feature_entries.
  assert (s' = s) as ->.
  { destruct (first_valid_shape_spec _ _ _ _ _ Hs')
      as [(pre & r & post & v & Heq & Hpre & Hv & Hb & Hs)|[Hall_nan ->]].
    - pose proof (Hfirst pre r post v Heq Hpre Hv Hb). congruence.
    - destruct results as [|r rest]; [discriminate|].
      injection Hr0 as ->.
      apply Forall_cons_1 in Hall_nan as [(w & Hw & Hwnan) _].
      pose proof (Hnan r0 w). rewrite Hv0 in Hw. injection Hw as ->.
      assert (shape w = Some s) by (apply H; [left|exact Hv0|exact Hwnan]).
      congruence. }
  eapply Forall2_fixed; [exact Hall|]. intros r r' Hr Hentry. simpl in Hentry.
  apply regularize_entry_inv in Hentry
    as (v & sv & Hv & Hsv & [[_ ->]|[(_ & _ & ->)|(Hvnan & Hne & _)]]);
    try reflexivity.
  pose proof (Hnan r v Hr Hv Hvnan). congruence.
Qed.

Lemma for_res_fixed (k : data_key) (fs : list string)
    (results results' : list Evaluation) :
  (∀ g, g ∈ fs → ∃ s, uniform k g s results) →
  for_res (regularize_feature k) fs results = Ok results' →
  results' = results.
Proof.
  induction fs as [|f fs IH]; simpl; [intros _ [= <-]; reflexivity|].
  intros Hall (mid & Hmid & Hrest)%bind_Ok.
  destruct (Hall f) as [s Hs]; [left|].
  pose proof (regularize_feature_fixed _ _ _ _ _ Hs Hmid). subst mid.
  apply IH; [|exact Hrest]. intros g Hg. apply Hall. right. exact Hg.
Qed.

Lemma regularize_fixed (k : data_key) (results results' : list Evaluation)
    (r0 : Evaluation) :
  first_result results = Ok r0 →
  (∀ g, g ∈ r0.*1 → ∃ s, uniform k g s results) →
  regularize results k = Ok results' → results' = results.
Proof.
  unfold regularize. intros Hr0 Hall (r & Hr & Hloop)%bind_Ok.
  rewrite Hr0 in Hr. injection Hr as <-.
  eapply for_res_fixed; eassumption.
Qed.

Lemma well_formed_regularized (results results' : list Evaluation) :
  Forall2 regularized results results' → well_formed results →
  well_formed results'.
Proof.
  intros Hreg (r0 & Hr0 & Hall).
  destruct (Forall2_regularized_head _ _ _ Hreg Hr0) as (r0' & Hr0' & Hkeys).
  exists r0'. split; [exact Hr0'|]. intros g r' k Hg Hr'.
  eapply Forall_forall; [|exact Hr'].
  apply (Forall2_regularized_readable k g _ _ Hreg).
  apply Forall_forall. intros r Hr. apply Hall; [|exact Hr].
  rewrite <- Hkeys. exact Hg.
Qed.

Lemma regularize_nan_results_passes (results results' : list Evaluation) :
  snd (regularize_nan_results results) = Ok results'
  ↔ ∃ mid, regularize results Values = Ok mid
           ∧ regularize mid Time = Ok results'.
Proof. unfold regularize_nan_results. simpl. apply bind_Ok. Qed.

(** X18: whenever [regularize_nan_results] returns, it has issued one
    deprecation warning, and the list it returns has the evaluations of its
    input in their order, each with the same features in the same order and
    the same interpolation objects; an entry ["values"] or ["time"] is the
    one of the input, unless that was only NaN, and then it is only NaN
    still. *)
Theorem regularize_nan_results_regularized
    (results results' : list Evaluation) :
  snd (regularize_nan_results results) = Ok results' →
  (∃ msg, fst (regularize_nan_results results) = [DeprecationWarning msg])
  ∧ Forall2 regularized results results'.
Proof.
  intros (mid & Hmid & Hres)%regularize_nan_results_passes.
  split; [eexists; reflexivity|].
  eapply Forall2_regularized_trans; eapply regularize_regularized; eassumption.
Qed.

Lemma regularize_nan_results_regularized_witness :
  snd (regularize_nan_results results_nan_shapes)
  = Ok results_nan_shapes_regular
  ∧ Forall2 regularized results_nan_shapes results_nan_shapes_regular.
Proof.
  split; [vm_compute; reflexivity|].
  refine (proj2 (regularize_nan_results_regularized
                   results_nan_shapes results_nan_shapes_regular _)).
  vm_compute. reflexivity.
Defined.

(** X19: whenever [regularize_nan_results] returns, then under each feature
    of the first evaluation, and for ["values"] as for ["time"], the entries
    of the returned list that are only NaN all have one shape, and the first
    entry that is not only NaN, if there is one, has that shape too. *)
Theorem regularize_nan_results_uniform (results results' : list Evaluation)
    (r0 : Evaluation) (g : string) (k : data_key) :
  snd (regularize_nan_results results) = Ok results' →
  first_result results = Ok r0 → g ∈ r0.*1 →
  ∃ s, uniform k g s results'.
Proof.
  intros (mid & Hmid & Hres)%regularize_nan_results_passes Hr0 Hg.
  eapply two_passes_uniform; eassumption.
Qed.

Lemma regularize_nan_results_uniform_witness :
  snd (regularize_nan_results results_nan_shapes)
  = Ok results_nan_shapes_regular
  ∧ ∃ s, uniform Time "f" s results_nan_shapes_regular.
Proof.
  split; [vm_compute; reflexivity|].
  apply (regularize_nan_results_uniform results_nan_shapes
           results_nan_shapes_regular [("f", envelope PyNan PyNan)] "f" Time).
  - vm_compute. reflexivity.
  - reflexivity.
  - left.
Defined.

(** X20: [regularize_nan_results] returns exactly on the inputs that have a
    first evaluation and in which, under each feature of that first
    evaluation, every evaluation holds values and a time that [np.isnan]
    accepts; on any other input it raises. *)
Theorem regularize_nan_results_returns_iff (results : list Evaluation) :
  (∃ results', snd (regularize_nan_results results) = Ok results')
  ↔ well_formed results.
Proof.
  rewrite <- two_passes_Ok. split.
  - intros (results' & (mid & Hmid & Hres)%regularize_nan_results_passes).
    eauto.
  - intros (mid & results' & Hmid & Hres). exists results'.
    apply regularize_nan_results_passes. eauto.
Qed.

(** X21: on an input it accepts and in which every feature of the first
    evaluation is uniform already, for ["values"] and for ["time"],
    [regularize_nan_results] returns the input as it is. *)
Theorem regularize_nan_results_fixed (results : list Evaluation) :
  well_formed results →
  (∀ r0 g k, first_result results = Ok r0 → g ∈ r0.*1 →
             ∃ s, uniform k g s results) →
  snd (regularize_nan_results results) = Ok results.
Proof.
  intros Hwf Huniform.
  destruct (proj2 (two_passes_Ok results) Hwf)
    as (mid & results' & Hmid & Hres).
  destruct Hwf as (r0 & Hr0 & _).
  assert (mid = results) as ->.
  { eapply regularize_fixed; [exact Hr0| |exact Hmid].
    intros g Hg. eapply Huniform; eassumption. }
  assert (results' = results) as ->.
  { eapply regularize_fixed; [exact Hr0| |exact Hres].
    intros g Hg. eapply Huniform; eassumption. }
  apply regularize_nan_results_passes. eauto.
Qed.

Lemma regularize_nan_results_fixed_witness :
  well_formed results_nan_shapes_regular
  ∧ snd (regularize_nan_results results_nan_shapes_regular)
    = Ok results_nan_shapes_regular.
Proof.
  assert (well_formed results_nan_shapes_regular) as Hwf.
  { apply two_passes_Ok.
    exists results_nan_shapes_regular, results_nan_shapes_regular.
    split; vm_compute; reflexivity. }
  split; [exact Hwf|].
  apply (regularize_nan_results_fixed results_nan_shapes_regular Hwf).
  intros r0 g k [= <-] Hg.
  apply (two_passes_uniform results_nan_shapes
           [ [("f", envelope (PyArr [PyNan; PyNan; PyNan]) PyNan)];
             [("f", envelope (nums [1; 2; 3]%Z) (nums [0; 1; 2]%Z))];
             [("f", envelope (PyArr [PyNan; PyNan; PyNan]) PyNan)] ]
           results_nan_shapes_regular [("f", envelope PyNan PyNan)] g k).
  - vm_compute. reflexivity.
  - vm_compute. reflexivity.
  - reflexivity.
  - exact Hg.
Defined.

(** X22: [regularize_nan_results] is idempotent: called on a list it has
    returned, it returns that list again. *)
Theorem regularize_nan_results_idempotent
    (results results' : list Evaluation) :
  snd (regularize_nan_results results) = Ok results' →
  snd (regularize_nan_results results') = Ok results'.
Proof.
  intros (mid & Hmid & Hres)%regularize_nan_results_passes.
  assert (Forall2 regularized results results') as Hreg.
  { eapply Forall2_regularized_trans; eapply regularize_regularized;
      eassumption. }
  assert (well_formed results) as Hwf by (apply two_passes_Ok; eauto).
  pose proof (well_formed_regularized _ _ Hreg Hwf) as Hwf'.
  destruct (proj2 (two_passes_Ok results') Hwf')
    as (mid' & results'' & Hmid' & Hres'').
  destruct Hwf as (r0 & Hr0 & _).
  destruct (Forall2_regularized_head _ _ _ Hreg Hr0) as (r0' & Hr0' & Hkeys).
  assert (∀ k g, g ∈ r0'.*1 → ∃ s, uniform k g s results') as Huniform.
  { intros k g Hg. rewrite Hkeys in Hg.
    exact (two_passes_uniform _ _ _ _ _ _ Hmid Hres Hr0 Hg). }
  assert (mid' = results') as ->
    by (eapply regularize_fixed; [exact Hr0'|apply Huniform|exact Hmid']).
  assert (results'' = results') as ->
    by (eapply regularize_fixed; [exact Hr0'|apply Huniform|exact Hres'']).
  apply regularize_nan_results_passes. eauto.
Qed.

Lemma regularize_nan_results_idempotent_witness :
  snd (regularize_nan_results results_nan_shapes)
  = Ok results_nan_shapes_regular
  ∧ snd (regularize_nan_results results_nan_shapes_regular)
    = Ok results_nan_shapes_regular.
Proof.
  split; [vm_compute; reflexivity|].
  apply (regularize_nan_results_idempotent results_nan_shapes).
  vm_compute. reflexivity.
Defined.
